(** * Maestro MCP server: flow-document builder, process runner,
      execution orchestrator and device inventory

    A shallow embedding of [src/maestro-client.ts].

    Conventions of the embedding.
    - A JavaScript string is a [string]: the sequence of its characters.
    - [params?: any] ranges over plain data, the values a decoded tool call
      carries: [undefined], [null], booleans, numbers, strings, arrays and
      objects.  An object is the list of its own enumerable properties in
      the order [Object.entries] visits them.
    - Numbers stay abstract: the runtime provides their decimal rendering
      ([String(n)]) and the finiteness test that [JSON.stringify] applies.
    - A statement that throws is the [Throw] case of [result]; a promise
      comes to an [outcome]: resolved, rejected, or pending for ever.
    - File-system calls and child processes are effects: every call is
      appended to a log and its outcome is read from an environment. *)

From Stdlib Require Import String Ascii ZArith DecimalString.
From stdpp Require Import gmap strings list.

Local Open Scope string_scope.
#[local] Arguments String.append !s1 s2 : simpl nomatch.

(** ** Text helpers *)

Definition dquote_char : ascii := "034"%char.
Definition backslash_char : ascii := "092"%char.

Definition dq : string := String dquote_char EmptyString.
Definition bs : string := String backslash_char EmptyString.
Definition nl : string := String "010"%char EmptyString.

(** [Array.prototype.join]. *)
Definition join (sep : string) (parts : list string) : string :=
  String.concat sep parts.

(** [s.replace(/c/g, r)] for a pattern that is the single character [c] and
    a replacement [r] without [$]. *)
Fixpoint replace_all (c : ascii) (r : string) (s : string) : string :=
  match s with
  | EmptyString => EmptyString
  | String a rest =>
      if Ascii.eqb a c then r ++ replace_all c r rest
      else String a (replace_all c r rest)
  end.

(** Decimal rendering of an array index. *)
Definition index_to_string (i : nat) : string :=
  NilEmpty.string_of_uint (Nat.to_uint i).

Definition bool_to_string (b : bool) : string :=
  if b then "true" else "false".

(** ** JavaScript values *)

Set Warnings "-register-all,-clear-no-such-hyp".

Inductive value {number : Type} : Type :=
  | VUndefined
  | VNull
  | VBool (b : bool)
  | VNum (n : number)
  | VStr (s : string)
  | VArr (items : list value)
  | VObj (props : list (string * value)).
Arguments value : clear implicits.

Inductive js_type := TUndefined | TObject | TBoolean | TNumber | TString.

Definition typeof {number} (v : value number) : js_type :=
  match v with
  | VUndefined => TUndefined
  | VNull | VArr _ | VObj _ => TObject
  | VBool _ => TBoolean
  | VNum _ => TNumber
  | VStr _ => TString
  end.

Definition is_type (t u : js_type) : bool :=
  match t, u with
  | TUndefined, TUndefined | TObject, TObject | TBoolean, TBoolean
  | TNumber, TNumber | TString, TString => true
  | _, _ => false
  end.

Definition Array_isArray {number} (v : value number) : bool :=
  match v with VArr _ => true | _ => false end.

Definition is_null {number} (v : value number) : bool :=
  match v with VNull => true | _ => false end.

(** What went wrong when a statement throws or a promise rejects. *)
Inductive exn :=
  | TypeError (msg : string)
  | SyntaxError (msg : string)
  | SystemError (msg : string).

Inductive result (A : Type) : Type :=
  | Ok (a : A)
  | Throw (e : exn).
Arguments Ok {A} a.
Arguments Throw {A} e.

(** The part of the JavaScript runtime the client relies on. *)
Class Runtime (number : Type) := {
  Number_toString : number -> string;
  Number_isFinite : number -> bool;
  Number_isTruthy : number -> bool;
  String_toLowerCase : string -> string;
  JSON_parse : string -> result (value number);
}.

(** A runtime whose numbers are the integers, for worked examples. *)
Definition Z_to_string (z : Z) : string :=
  NilZero.string_of_int (Z.to_int z).

Definition ascii_lower (c : ascii) : ascii :=
  let n := nat_of_ascii c in
  if (65 <=? n)%nat && (n <=? 90)%nat then ascii_of_nat (n + 32) else c.

Fixpoint string_lower (s : string) : string :=
  match s with
  | EmptyString => EmptyString
  | String c rest => String (ascii_lower c) (string_lower rest)
  end.

(** [JSON.parse] of the example runtime knows the documents listed in
    [known]; any other text is a syntax error. *)
Definition table_parse {number} (known : list (string * value number))
    (text : string) : result (value number) :=
  match List.find (fun entry => String.eqb (fst entry) text) known with
  | Some entry => Ok (snd entry)
  | None => Throw (SyntaxError "Unexpected token")
  end.

Definition integer_runtime (known : list (string * value Z)) : Runtime Z := {|
  Number_toString := Z_to_string;
  Number_isFinite := fun _ => true;
  Number_isTruthy := fun z => negb (z =? 0)%Z;
  String_toLowerCase := string_lower;
  JSON_parse := table_parse known;
|}.

(** ** Flow document builder *)

Section Builder.
Context {number : Type} `{!Runtime number}.

(** [QuoteJSONString], character by character. *)
Definition hex_digit (n : nat) : ascii :=
  nth n ["0"; "1"; "2"; "3"; "4"; "5"; "6"; "7"; "8"; "9";
         "a"; "b"; "c"; "d"; "e"; "f"]%char "0"%char.

Definition json_escape_char (c : ascii) : string :=
  let n := nat_of_ascii c in
  if Ascii.eqb c dquote_char then bs ++ dq
  else if Ascii.eqb c backslash_char then bs ++ bs
  else if (n =? 8)%nat then bs ++ "b"
  else if (n =? 9)%nat then bs ++ "t"
  else if (n =? 10)%nat then bs ++ "n"
  else if (n =? 12)%nat then bs ++ "f"
  else if (n =? 13)%nat then bs ++ "r"
  else if (n <? 32)%nat then
    bs ++ "u00" ++ String (hex_digit (n / 16)) (String (hex_digit (n mod 16)) "")
  else String c "".

Fixpoint json_escape (s : string) : string :=
  match s with
  | EmptyString => EmptyString
  | String c rest => json_escape_char c ++ json_escape rest
  end.

Definition json_quote (s : string) : string := dq ++ json_escape s ++ dq.

(** [JSON.stringify(v)]; [None] is the result [undefined]. Inside an array
    [undefined] is written [null]; inside an object the property is left
    out. *)
Fixpoint JSON_stringify (v : value number) : option string :=
  match v with
  | VUndefined => None
  | VNull => Some "null"
  | VBool b => Some (bool_to_string b)
  | VNum n => Some (if Number_isFinite n then Number_toString n else "null")
  | VStr s => Some (json_quote s)
  | VArr items =>
      Some ("[" ++ join "," (map (fun e => default "null" (JSON_stringify e)) items) ++ "]")
  | VObj props =>
      Some ("{" ++ join ","
              (omap (fun kv => match JSON_stringify (snd kv) with
                               | Some text => Some (json_quote (fst kv) ++ ":" ++ text)
                               | None => None
                               end) props) ++ "}")
  end.

(** A template literal writes [undefined] as the word. *)
Definition interpolate (text : option string) : string :=
  default "undefined" text.

(** Entries of an array: its indices, in order, as decimal keys. *)
Fixpoint indexed {A} (start : nat) (items : list A) : list (string * A) :=
  match items with
  | [] => []
  | x :: rest => (index_to_string start, x) :: indexed (S start) rest
  end.

Fixpoint characters (s : string) : list string :=
  match s with
  | EmptyString => []
  | String c rest => String c EmptyString :: characters rest
  end.

(** [Object.entries(v)] for a value that is not [undefined] or [null]. *)
Definition Object_entries (v : value number) : list (string * value number) :=
  match v with
  | VObj props => props
  | VArr items => indexed 0 items
  | VStr s => indexed 0 (map VStr (characters s))
  | _ => []
  end.

(** maestro-client.ts:128 *)
Definition escapeYaml (s : string) : string :=
  replace_all dquote_char (bs ++ dq) (replace_all backslash_char (bs ++ bs) s).

(** maestro-client.ts:122. The declared return type is [string], but for
    [undefined] the [JSON.stringify] call yields [undefined]. *)
Definition formatValue (v : value number) : option string :=
  match v with
  | VStr s => Some (dq ++ escapeYaml s ++ dq)
  | VNum n => Some (Number_toString n)
  | VBool b => Some (bool_to_string b)
  | _ => JSON_stringify v
  end.

Record FlowStep := {
  command : string;
  params : value number;   (* [params?]: an absent field reads [undefined] *)
}.

(** One entry of the object block, maestro-client.ts:105-114. *)
Definition formatEntry (kv : string * value number) : string :=
  let (k, v) := kv in
  if is_type (typeof v) TObject && negb (is_null v) then
    let nested :=
      join nl (map (fun nkv => "        " ++ fst nkv ++ ": "
                                 ++ interpolate (formatValue (snd nkv)))
                   (Object_entries v)) in
    "      " ++ k ++ ":" ++ nl ++ nested
  else "      " ++ k ++ ": " ++ interpolate (formatValue v).

(** maestro-client.ts:79 *)
Definition formatStep (step : FlowStep) : string :=
  let command := step.(command) in
  let params := step.(params) in
  match params with
  | VUndefined | VNull => "- " ++ command                             (* line 83 *)
  | VStr s => "- " ++ command ++ ": " ++ dq ++ escapeYaml s ++ dq     (* line 88 *)
  | VNum n => "- " ++ command ++ ": " ++ Number_toString n            (* line 93 *)
  | VBool b => "- " ++ command ++ ": " ++ bool_to_string b            (* line 98 *)
  | _ =>
      if is_type (typeof params) TObject && negb (Array_isArray params)
      then                                                            (* line 103 *)
        let inner := join nl (map formatEntry (Object_entries params)) in
        "- " ++ command ++ ":" ++ nl ++ inner
      else "- " ++ command ++ ": " ++ interpolate (JSON_stringify params)
  end.

(** maestro-client.ts:70 *)
Definition buildYaml (appId : string) (steps : list FlowStep) : string :=
  let lines :=
    fold_left (fun lines step => (lines ++ [formatStep step])%list) steps
              ["appId: " ++ appId; "---"] in
  join nl lines ++ nl.

End Builder.

Arguments FlowStep : clear implicits.

(** ** Process runner *)

Record ExecResult := {
  stdout : string;
  stderr : string;
  exitCode : Z;
}.

(** The [code] property of the error object [execFile] hands to its
    callback: the exit status (a number), an errno name such as ENOENT
    (a string), or nothing when the child was killed. *)
Inductive error_code :=
  | CodeNumber (n : Z)
  | CodeString (name : string)
  | CodeAbsent.

Record ChildError := {
  code : error_code;
  message : string;
}.

(** The three arguments of the [execFile] callback. *)
Record CallbackArgs := {
  cb_error : option ChildError;
  cb_stdout : option string;
  cb_stderr : option string;
}.

(** The callback of maestro-client.ts:23-29, which resolves the promise. *)
Definition exec_resolve (a : CallbackArgs) : ExecResult :=
  {| stdout := default "" a.(cb_stdout);
     stderr := default "" a.(cb_stderr);
     exitCode := match a.(cb_error) with
                 | Some error =>
                     match error.(code) with
                     | CodeNumber n => n
                     | _ => 1
                     end
                 | None => 0
                 end |}.

(** How a child process ended, and what [execFile] then reports:
    no error for exit status 0, an error carrying the status for any other
    exit, an error without a numeric code when the child was killed (signal
    or timeout) and an error carrying the errno name, with empty output,
    when the child could not be started. *)
Inductive termination :=
  | Exited (status : Z)
  | Killed (signal : string)
  | SpawnFailed (errno : string).

Definition execFile_report (t : termination) (out err : string) : CallbackArgs :=
  match t with
  | Exited status =>
      {| cb_error := if (status =? 0)%Z then None
                     else Some {| code := CodeNumber status;
                                  message := "Command failed" |};
         cb_stdout := Some out; cb_stderr := Some err |}
  | Killed signal =>
      {| cb_error := Some {| code := CodeAbsent; message := "Command failed" |};
         cb_stdout := Some out; cb_stderr := Some err |}
  | SpawnFailed errno =>
      {| cb_error := Some {| code := CodeString errno;
                             message := "spawn " ++ errno |};
         cb_stdout := Some ""; cb_stderr := Some "" |}
  end.

(** What a promise comes to. [Pending] is a promise nothing ever settles. *)
Inductive outcome (A : Type) : Type :=
  | Resolved (a : A)
  | Rejected (e : exn)
  | Pending.
Arguments Resolved {A} a.
Arguments Rejected {A} e.
Arguments Pending {A}.

(** [execFile] either throws on the spot, as it does for arguments it
    refuses, or starts and later calls back once, however the child
    process fared. *)
Inductive execFile_behaviour :=
  | CallsBack (a : CallbackArgs)
  | ExecFileThrows (e : exn).

(** maestro-client.ts:17. A throw inside the promise executor rejects. *)
Definition exec_outcome (b : execFile_behaviour) : outcome ExecResult :=
  match b with
  | CallsBack a => Resolved (exec_resolve a)
  | ExecFileThrows e => Rejected e
  end.

(** Events of a spawned child, in the order the handlers see them.
    Whatever happens to the process arrives as an event; [spawn] itself
    only throws on the spot, for arguments it refuses. *)
Inductive child_event :=
  | StdoutData (chunk : string)
  | StderrData (chunk : string)
  | Close (status : option Z)
  | ErrorEvent (message : string).

Inductive spawn_behaviour :=
  | Emits (events : list child_event)
  | SpawnThrows (e : exn).

(** The closure state of [execStream]: the two buffers and the promise. *)
Record stream_state := {
  buf_stdout : string;
  buf_stderr : string;
  settled : option ExecResult;
}.

(** [resolve] only has an effect the first time. *)
Definition resolve_once (st : stream_state) (r : ExecResult) : stream_state :=
  {| buf_stdout := st.(buf_stdout);
     buf_stderr := st.(buf_stderr);
     settled := match st.(settled) with Some r0 => Some r0 | None => Some r end |}.

(** The four handlers of maestro-client.ts:45-56. *)
Definition handle (st : stream_state) (ev : child_event) : stream_state :=
  match ev with
  | StdoutData chunk =>
      {| buf_stdout := st.(buf_stdout) ++ chunk;
         buf_stderr := st.(buf_stderr);
         settled := st.(settled) |}
  | StderrData chunk =>
      {| buf_stdout := st.(buf_stdout);
         buf_stderr := st.(buf_stderr) ++ chunk;
         settled := st.(settled) |}
  | Close status =>
      resolve_once st {| stdout := st.(buf_stdout);
                         stderr := st.(buf_stderr);
                         exitCode := default 1%Z status |}
  | ErrorEvent msg =>
      resolve_once st {| stdout := st.(buf_stdout);
                         stderr := st.(buf_stderr) ++ nl ++ msg;
                         exitCode := 1 |}
  end.

Definition stream_start : stream_state :=
  {| buf_stdout := ""; buf_stderr := ""; settled := None |}.

(** maestro-client.ts:34 *)
Definition execStream_outcome (b : spawn_behaviour) : outcome ExecResult :=
  match b with
  | SpawnThrows e => Rejected e
  | Emits events =>
      match (fold_left handle events stream_start).(settled) with
      | Some r => Resolved r
      | None => Pending
      end
  end.

(** ** Effects: file system, child processes, promises *)

(** Every call the client makes to the outside, with the reply it got.
    A child is named by the position of its launch in the log. *)
Inductive effect :=
  | Mkdtemp (prefix : string) (reply : result string)
  | WriteFile (path content : string) (reply : result unit)
  | Rm (path : string) (reply : result unit)
  | Spawn (pid : nat) (cmd : string) (args : list string) (timeoutMs : Z)
  | ExecFile (pid : nat) (cmd : string) (args : list string) (timeoutMs : Z)
  | Settle (pid : nat).

(** The outside world. Replies may depend on everything that happened
    before; [finish_time] orders the children that run side by side. *)
Record environment := {
  tmpdir : string;
  path_join : string -> string -> string;
  mkdtemp_reply : list effect -> string -> result string;
  writeFile_reply : list effect -> string -> string -> result unit;
  rm_reply : list effect -> string -> result unit;
  spawn_reply : list effect -> string -> list string -> Z -> spawn_behaviour;
  execFile_reply : list effect -> string -> list string -> Z -> execFile_behaviour;
  finish_time : nat -> nat;
}.

(** An asynchronous computation: it reads the environment, extends the log
    and comes to an outcome. *)
Definition M (A : Type) : Type :=
  environment -> list effect -> outcome A * list effect.

Definition ret {A} (a : A) : M A := fun _ log => (Resolved a, log).

Definition reject {A} (e : exn) : M A := fun _ log => (Rejected e, log).

Definition bind {A B} (m : M A) (k : A -> M B) : M B :=
  fun env log =>
    match m env log with
    | (Resolved a, log') => k a env log'
    | (Rejected e, log') => (Rejected e, log')
    | (Pending, log') => (Pending, log')
    end.

Notation "'let*' x ':=' m 'in' k" := (bind m (fun x => k))
  (at level 10, x name, m at level 100, k at level 200).

Definition of_result {A} (r : result A) : outcome A :=
  match r with Ok a => Resolved a | Throw e => Rejected e end.

(** [try { body } finally { cleanup }]: the cleanup runs when the body
    returns and when it throws; if the cleanup itself throws, that
    exception replaces the outcome of the body. *)
Definition try_finally {A} (body : M A) (cleanup : M unit) : M A :=
  fun env log =>
    match body env log with
    | (Pending, log') => (Pending, log')
    | (o, log') =>
        match cleanup env log' with
        | (Resolved _, log'') => (o, log'')
        | (Rejected e, log'') => (Rejected e, log'')
        | (Pending, log'') => (Pending, log'')
        end
    end.

(** [await p.catch(() => {})] *)
Definition catch_ignore (m : M unit) : M unit :=
  fun env log =>
    match m env log with
    | (Rejected _, log') => (Resolved tt, log')
    | other => other
    end.

Definition mkdtemp (prefix : string) : M string :=
  fun env log =>
    let reply := env.(mkdtemp_reply) log prefix in
    (of_result reply, (log ++ [Mkdtemp prefix reply])%list).

Definition writeFile (path content : string) : M unit :=
  fun env log =>
    let reply := env.(writeFile_reply) log path content in
    (of_result reply, (log ++ [WriteFile path content reply])%list).

(** [rm(path, { recursive: true, force: true })] *)
Definition rm (path : string) : M unit :=
  fun env log =>
    let reply := env.(rm_reply) log path in
    (of_result reply, (log ++ [Rm path reply])%list).

Definition join_path (a b : string) : M string :=
  fun env log => (Resolved (env.(path_join) a b), log).

Definition os_tmpdir : M string :=
  fun env log => (Resolved env.(tmpdir), log).

(** A promise in flight: the child it waits for and what it will come to. *)
Record promise (A : Type) := {
  pid : nat;
  fate : outcome A;
}.
Arguments pid {A} p.
Arguments fate {A} p.

(** Calling [execStream] launches the child and hands back the promise. *)
Definition execStream (cmd : string) (args : list string) (timeoutMs : option Z)
    : M (promise ExecResult) :=
  fun env log =>
    let t := default 180000%Z timeoutMs in
    let behaviour := env.(spawn_reply) log cmd args t in
    (Resolved {| pid := length log; fate := execStream_outcome behaviour |},
     (log ++ [Spawn (length log) cmd args t])%list).

Definition exec (cmd : string) (args : list string) (timeoutMs : option Z)
    : M (promise ExecResult) :=
  fun env log =>
    let t := default 120000%Z timeoutMs in
    let behaviour := env.(execFile_reply) log cmd args t in
    (Resolved {| pid := length log; fate := exec_outcome behaviour |},
     (log ++ [ExecFile (length log) cmd args t])%list).

(** [p.catch(() => fallback)] *)
Definition catch_with {A} (fallback : A) (p : promise A) : promise A :=
  {| pid := p.(pid);
     fate := match p.(fate) with
             | Rejected _ => Resolved fallback
             | other => other
             end |}.

(** [await p] *)
Definition await {A} (p : promise A) : M A :=
  fun env log =>
    match p.(fate) with
    | Pending => (Pending, log)
    | o => (o, (log ++ [Settle p.(pid)])%list)
    end.

Definition is_pending {A} (p : promise A) : bool :=
  match p.(fate) with Pending => true | _ => false end.

Fixpoint insert_by {A} (rank : A -> nat) (x : A) (l : list A) : list A :=
  match l with
  | [] => [x]
  | y :: rest =>
      if (rank x <=? rank y)%nat then x :: l else y :: insert_by rank x rest
  end.

Definition sort_by {A} (rank : A -> nat) (l : list A) : list A :=
  foldr (insert_by rank) [] l.

(** The promises settle one after the other, in the order the environment
    fixes; the first rejection ends the wait. *)
Fixpoint settle_in_order {A} (order : list (promise A)) (log : list effect)
    : option exn * list effect :=
  match order with
  | [] => (None, log)
  | p :: rest =>
      match p.(fate) with
      | Rejected e => (Some e, (log ++ [Settle p.(pid)])%list)
      | _ => settle_in_order rest (log ++ [Settle p.(pid)])%list
      end
  end.

Definition values {A} (ps : list (promise A)) : list A :=
  omap (fun p => match p.(fate) with Resolved a => Some a | _ => None end) ps.

(** [await Promise.all(ps)]: resolves, with the values in the order of
    [ps], once every promise has resolved; rejects as soon as one rejects;
    stays pending if one never settles and none rejects. *)
Definition Promise_all {A} (ps : list (promise A)) : M (list A) :=
  fun env log =>
    let ready := filter (fun p => is_pending p = false) ps in
    let order := sort_by (fun p => env.(finish_time) p.(pid)) ready in
    match settle_in_order order log with
    | (Some e, log') => (Rejected e, log')
    | (None, log') =>
        if forallb (fun p => negb (is_pending p)) ps
        then (Resolved (values ps), log')
        else (Pending, log')
    end.

Fixpoint mapM {A B} (f : A -> M B) (l : list A) : M (list B) :=
  match l with
  | [] => ret []
  | x :: rest =>
      let* y := f x in
      let* ys := mapM f rest in
      ret (y :: ys)
  end.

(** The scratch directories the client has made and not removed. *)
Definition track (dirs : list string) (e : effect) : list string :=
  match e with
  | Mkdtemp _ (Ok dir) => (dirs ++ [dir])%list
  | Rm path (Ok _) => filter (fun d => negb (String.eqb d path)) dirs
  | _ => dirs
  end.

Definition scratch_dirs (log : list effect) : list string :=
  fold_left track log [].

(** ** Execution orchestrator *)

Definition outcome_map {A B} (f : A -> B) (o : outcome A) : outcome B :=
  match o with
  | Resolved a => Resolved (f a)
  | Rejected e => Rejected e
  | Pending => Pending
  end.

(** The promise of an [async] function that awaits [p] and returns [f] of
    its value. *)
Definition promise_map {A B} (f : A -> B) (p : promise A) : promise B :=
  {| pid := p.(pid); fate := outcome_map f p.(fate) |}.

(** [if (deviceId)]: [undefined] and the empty string are falsy. *)
Definition device_args (deviceId : option string) : list string :=
  match deviceId with
  | Some (String c rest) => ["--device"; String c rest]
  | _ => []
  end.

(** The object [results] of line 248, made by the literal [{}]: its own
    properties and, once the key [__proto__] has been assigned, the result
    that has become its prototype in place of [Object.prototype]. *)
Module Results.
Record t := {
  own : gmap string ExecResult;
  proto : option ExecResult;
}.
End Results.

#[global] Instance results_empty : Empty Results.t :=
  {| Results.own := ∅; Results.proto := None |}.

Section Orchestrator.
Context {number : Type} `{!Runtime number}.

(** maestro-client.ts:196 *)
Definition runFlow (flowPath : string) (deviceId : option string)
    (timeoutMs : option Z) : M (promise ExecResult) :=
  let args := (device_args deviceId ++ ["test"; flowPath])%list in
  execStream "maestro" args (Some (default 180000%Z timeoutMs)).

(** maestro-client.ts:210 *)
Definition executeSteps (appId : string) (steps : list (FlowStep number))
    (deviceId : option string) (timeoutMs : option Z)
    : M (string * ExecResult) :=
  let yaml := buildYaml appId steps in
  let* tmp := os_tmpdir in
  let* prefix := join_path tmp "maestro-mcp-" in
  let* dir := mkdtemp prefix in
  let* flowPath := join_path dir "flow.yaml" in
  let* _ := writeFile flowPath yaml in
  try_finally
    (let* running := runFlow flowPath deviceId timeoutMs in
     let* result := await running in
     ret (yaml, result))
    (catch_ignore (rm dir)).

(** The body of the loop of lines 249-251: [results[id] = result]. The
    assignment makes or overwrites an own property, except for the key
    [__proto__]: that one is the accessor inherited from
    [Object.prototype], whose setter makes the assigned object the
    prototype of [results] and adds no property. *)
Definition record_entry (results : Results.t)
    (entry : string * ExecResult) : Results.t :=
  if String.eqb (fst entry) "__proto__" then
    {| Results.own := results.(Results.own);
       Results.proto := Some (snd entry) |}
  else
    {| Results.own := <[fst entry := snd entry]> results.(Results.own);
       Results.proto := results.(Results.proto) |}.

(** The arrow function of line 243. Calling it runs it up to its first
    [await]: the child is launched and the promise of the pair handed
    back. *)
Definition runOnDevice (flowPath : string) (timeoutMs : option Z) (id : string)
    : M (promise (string * ExecResult)) :=
  let* p := runFlow flowPath (Some id) timeoutMs in
  ret (promise_map (fun result => (id, result)) p).

(** maestro-client.ts:230. [deviceIds.map(...)] calls the arrow function
    for every id, so all children are launched before the first one is
    waited for. *)
Definition executeStepsMultiDevice (appId : string)
    (steps : list (FlowStep number)) (deviceIds : list string)
    (timeoutMs : option Z) : M (string * Results.t) :=
  let yaml := buildYaml appId steps in
  let* tmp := os_tmpdir in
  let* prefix := join_path tmp "maestro-mcp-" in
  let* dir := mkdtemp prefix in
  let* flowPath := join_path dir "flow.yaml" in
  let* _ := writeFile flowPath yaml in
  try_finally
    (let* running := mapM (runOnDevice flowPath timeoutMs) deviceIds in
     let* entries := Promise_all running in
     let results := fold_left record_entry entries ∅ in
     ret (yaml, results))
    (catch_ignore (rm dir)).


End Orchestrator.

(** ** Device inventory *)

(** [s.split(sep)] for a one-character separator. *)
Fixpoint split_on (sep : ascii) (s : string) : list string :=
  match s with
  | EmptyString => [EmptyString]
  | String c rest =>
      if Ascii.eqb c sep then EmptyString :: split_on sep rest
      else match split_on sep rest with
           | first :: others => String c first :: others
           | [] => [String c EmptyString]
           end
  end.

(** White space of [\s] and [trim()] among the ASCII characters. A text
    is a sequence of bytes here; the white space JavaScript knows beyond
    ASCII (U+00A0, U+FEFF, U+2028 and the like) is not recognised, so the
    model speaks for ASCII text. *)
Definition is_space (c : ascii) : bool :=
  let n := nat_of_ascii c in
  ((9 <=? n)%nat && (n <=? 13)%nat) || (n =? 32)%nat.

Fixpoint trim_start (s : string) : string :=
  match s with
  | String c rest => if is_space c then trim_start rest else s
  | EmptyString => EmptyString
  end.

Fixpoint trim_end (s : string) : string :=
  match s with
  | EmptyString => EmptyString
  | String c rest =>
      match trim_end rest with
      | EmptyString => if is_space c then EmptyString else String c EmptyString
      | kept => String c kept
      end
  end.

Definition trim (s : string) : string := trim_end (trim_start s).

(** The longest prefix whose characters satisfy [p], and the rest. *)
Fixpoint span (p : ascii -> bool) (s : string) : string * string :=
  match s with
  | EmptyString => (EmptyString, EmptyString)
  | String c rest =>
      if p c then let (taken, left) := span p rest in (String c taken, left)
      else (EmptyString, s)
  end.

Definition is_empty (s : string) : bool :=
  match s with EmptyString => true | _ => false end.

Definition status_words : list string := ["device"; "offline"; "unauthorized"].

(** [line.match(/^(\S+)\s+(device|offline|unauthorized)$/)]: the groups
    1 and 2 of the match, if there is one. *)
Definition match_device_line (line : string) : option (string * string) :=
  let (id, rest) := span (fun c => negb (is_space c)) line in
  let (gap, word) := span is_space rest in
  if negb (is_empty id) && negb (is_empty gap)
     && existsb (String.eqb word) status_words
  then Some (id, word) else None.

Module Android.
Record device := { id : string; status : string }.
End Android.

(** Lines 160-169. *)
Definition parse_android (androidResult : ExecResult) : list Android.device :=
  if (androidResult.(exitCode) =? 0)%Z then
    let lines := tail (split_on "010"%char androidResult.(stdout)) in
    fold_left
      (fun android line =>
         match match_device_line (trim line) with
         | Some (id, status) =>
             (android ++ [{| Android.id := id; Android.status := status |}])%list
         | None => android
         end)
      lines []
  else [].

(** [runtime.split(".").pop()] *)
Definition last_segment (s : string) : string :=
  List.last (split_on "."%char s) EmptyString.

Module Ios.
Record device {number : Type} := {
  id : value number;
  name : string;
  status : string;
}.
Arguments device : clear implicits.
End Ios.

Record Inventory {number : Type} := {
  android : list Android.device;
  ios : list (Ios.device number);
}.
Arguments Inventory : clear implicits.

Definition rbind {A B} (r : result A) (k : A -> result B) : result B :=
  match r with Ok a => k a | Throw e => Throw e end.

Notation "'let?' x ':=' r 'in' k" := (rbind r (fun x => k))
  (at level 10, x name, r at level 100, k at level 200).

Section Inventory.
Context {number : Type} `{!Runtime number}.

Definition lookup_prop (key : string) (props : list (string * value number))
    : value number :=
  match List.find (fun kv => String.eqb (fst kv) key) props with
  | Some kv => snd kv
  | None => VUndefined
  end.

(** The property read [v.key] or [v[key]], for the keys this client reads
    (none of them is inherited from a prototype). *)
Definition get (v : value number) (key : string) : result (value number) :=
  match v with
  | VUndefined | VNull => Throw (TypeError "Cannot read properties")
  | _ => Ok (lookup_prop key (Object_entries v))
  end.

Definition Object_keys (v : value number) : list string :=
  map fst (Object_entries v).

Definition truthy (v : value number) : bool :=
  match v with
  | VUndefined | VNull => false
  | VBool b => b
  | VNum n => Number_isTruthy n
  | VStr s => negb (is_empty s)
  | VArr _ | VObj _ => true
  end.

(** What [for (const x of v)] visits. *)
Definition iterate (v : value number) : result (list (value number)) :=
  match v with
  | VArr items => Ok items
  | VStr s => Ok (map VStr (characters s))
  | _ => Throw (TypeError "is not iterable")
  end.

Definition has_key (key : string) (props : list (string * value number)) : bool :=
  existsb (fun kv => String.eqb (fst kv) key) props.

(** The conversion a template literal applies. An array joins its
    elements with commas, [null] and [undefined] elements counting as
    empty; an object prints as [[object Object]] unless an own [toString]
    property, which plain data cannot make callable, hides the inherited
    method. *)
Fixpoint ToString (v : value number) : result string :=
  match v with
  | VUndefined => Ok "undefined"
  | VNull => Ok "null"
  | VBool b => Ok (bool_to_string b)
  | VNum n => Ok (Number_toString n)
  | VStr s => Ok s
  | VArr items =>
      let? parts :=
        (fix each (l : list (value number)) : result (list string) :=
           match l with
           | [] => Ok []
           | x :: rest =>
               let? text := match x with
                            | VUndefined | VNull => Ok ""
                            | _ => ToString x
                            end in
               let? texts := each rest in
               Ok (text :: texts)
           end) items in
      Ok (join "," parts)
  | VObj props =>
      if has_key "toString" props
      then Throw (TypeError "Cannot convert object to primitive value")
      else Ok "[object Object]"
  end.

(** [x !== false] *)
Definition not_false (v : value number) : bool :=
  match v with VBool false => false | _ => true end.

(** [device.state?.toLowerCase() ?? "unknown"] *)
Definition status_of (state : value number) : result string :=
  match state with
  | VUndefined | VNull => Ok "unknown"
  | VStr s => Ok (String_toLowerCase s)
  | _ => Throw (TypeError "toLowerCase is not a function")
  end.

(** The object literal of lines 179-183. *)
Definition ios_record (runtime : string) (device : value number)
    : result (Ios.device number) :=
  let? udid := get device "udid" in
  let? name := get device "name" in
  let? nameText := ToString name in
  let? state := get device "state" in
  let? status := status_of state in
  Ok {| Ios.id := udid;
        Ios.name := nameText ++ " (" ++ last_segment runtime ++ ")";
        Ios.status := status |}.

(** The inner loop, lines 177-185: the array [ios] so far goes in, the
    array and the exception that ended the loop, if any, come out. *)
Fixpoint scan_devices (runtime : string) (devices : list (value number))
    (ios : list (Ios.device number)) : list (Ios.device number) * option exn :=
  match devices with
  | [] => (ios, None)
  | device :: rest =>
      match get device "isAvailable" with
      | Throw e => (ios, Some e)
      | Ok flag =>
          if not_false flag then
            match ios_record runtime device with
            | Throw e => (ios, Some e)
            | Ok record => scan_devices runtime rest (ios ++ [record])%list
            end
          else scan_devices runtime rest ios
      end
  end.

(** The outer loop, line 176. *)
Fixpoint scan_runtimes (devices : value number) (runtimes : list string)
    (ios : list (Ios.device number)) : list (Ios.device number) * option exn :=
  match runtimes with
  | [] => (ios, None)
  | runtime :: rest =>
      match get devices runtime with
      | Throw e => (ios, Some e)
      | Ok listed =>
          match iterate listed with
          | Throw e => (ios, Some e)
          | Ok entries =>
              match scan_devices runtime entries ios with
              | (ios', None) => scan_runtimes devices rest ios'
              | stopped => stopped
              end
          end
      end
  end.

(** The body of the [try], lines 174-186. *)
Definition ios_try (text : string) (ios : list (Ios.device number))
    : list (Ios.device number) * option exn :=
  match JSON_parse text with
  | Throw e => (ios, Some e)
  | Ok data =>
      match get data "devices" with
      | Throw e => (ios, Some e)
      | Ok found =>
          let devices := if truthy found then found else VObj [] in
          scan_runtimes devices (Object_keys devices) ios
      end
  end.

(** Lines 171-190; the [catch] drops the exception and keeps the array. *)
Definition parse_ios (iosResult : ExecResult) : list (Ios.device number) :=
  if (iosResult.(exitCode) =? 0)%Z then fst (ios_try iosResult.(stdout) [])
  else [].

Definition discovery_failed : ExecResult :=
  {| stdout := ""; stderr := ""; exitCode := 1 |}.

(** maestro-client.ts:147 *)
Definition listDevices : M (Inventory number) :=
  let* adb := exec "adb" ["devices"] None in
  let* xcrun := exec "xcrun" ["simctl"; "list"; "devices"; "--json"] None in
  let* both := Promise_all [catch_with discovery_failed adb;
                            catch_with discovery_failed xcrun] in
  match both !! 0%nat, both !! 1%nat with
  | Some androidResult, Some iosResult =>
      ret {| android := parse_android androidResult;
             ios := parse_ios iosResult |}
  | _, _ => reject (TypeError "Cannot read properties of undefined")
  end.

End Inventory.

(** ** The other methods of the client *)

(** [a || b] on texts: the empty text is falsy. *)
Definition or_else (a b : string) : string :=
  if is_empty a then b else a.

Module Install.
Record info := {
  installed : bool;
  version : option string;
  error : option string;
}.
End Install.

(** maestro-client.ts:138 *)
Definition checkInstallation : M Install.info :=
  let* running := exec "maestro" ["--version"] None in
  let* result := await running in
  if (result.(exitCode) =? 0)%Z then
    ret {| Install.installed := true;
           Install.version := Some (trim result.(stdout));
           Install.error := None |}
  else
    ret {| Install.installed := false;
           Install.version := None;
           Install.error := Some (or_else result.(stderr) "maestro CLI not found") |}.

Section PassThrough.
Context {number : Type} `{!Runtime number}.

(** maestro-client.ts:295. [if (port)]: an absent port and a port that is
    falsy as a number add nothing. *)
Definition launchStudio (deviceId : option string) (port : option number)
    : M (promise ExecResult) :=
  let portArgs := match port with
                  | Some n => if Number_isTruthy n
                              then ["--port"; Number_toString n] else []
                  | None => []
                  end in
  exec "maestro" (device_args deviceId ++ ["studio"] ++ portArgs)%list
       (Some 5000%Z).

End PassThrough.

(** ** Tool handlers of the server, [src/index.ts] *)

Module Tool.
Record result := {
  text : string;
  isError : bool;
}.
End Tool.

(** index.ts:25 and 29 *)
Definition tool_ok (text : string) : Tool.result :=
  {| Tool.text := text; Tool.isError := false |}.

Definition tool_fail (text : string) : Tool.result :=
  {| Tool.text := text; Tool.isError := true |}.

Definition truthy_text (s : option string) : bool :=
  match s with Some (String _ _) => true | _ => false end.

(** The report most handlers build from the document and the result. *)
Definition flow_report (yaml : string) (result : ExecResult) : string :=
  "**Flow:**" ++ nl ++ "```yaml" ++ nl ++ yaml ++ "```" ++ nl ++ nl
  ++ "**Exit:** " ++ Z_to_string result.(exitCode) ++ nl
  ++ result.(stdout) ++ nl ++ result.(stderr).

Definition run_report (result : ExecResult) : string :=
  "**Exit:** " ++ Z_to_string result.(exitCode) ++ nl
  ++ result.(stdout) ++ nl ++ result.(stderr).

(** [result.exitCode === 0 ? ok(output) : fail(output)] *)
Definition by_exit_code (result : ExecResult) (output : string) : Tool.result :=
  if (result.(exitCode) =? 0)%Z then tool_ok output else tool_fail output.

Inductive direction := Up | Down | Leftward | Rightward.

Definition direction_name (d : direction) : string :=
  match d with
  | Up => "up"
  | Down => "down"
  | Leftward => "left"
  | Rightward => "right"
  end.

Module Point.
Record t {number : Type} := { x : number; y : number }.
Arguments t : clear implicits.
End Point.

Section Tools.
Context {number : Type} `{!Runtime number}.

(** A property written from an optional argument: absent is [undefined]. *)
Definition optional_number (n : option number) : value number :=
  match n with Some v => VNum v | None => VUndefined end.

(** The template [`${p.x}%,${p.y}%`]. *)
Definition percent_pair (p : Point.t number) : string :=
  Number_toString p.(Point.x) ++ "%," ++ Number_toString p.(Point.y) ++ "%".

(** The steps of the swipe tool, index.ts:191-206; [None] is the early
    return with the failure message. *)
Definition swipe_steps (dir : option direction)
    (start finish : option (Point.t number)) (duration : option number)
    : option (list (FlowStep number)) :=
  match dir with
  | Some d =>
      Some [{| command := "swipe";
               params := VObj [("direction", VStr (direction_name d));
                               ("duration", optional_number duration)] |}]
  | None =>
      match start, finish with
      | Some s, Some e =>
          Some [{| command := "swipe";
                   params := VObj [("start", VStr (percent_pair s));
                                   ("end", VStr (percent_pair e));
                                   ("duration", optional_number duration)] |}]
      | _, _ => None
      end
  end.

(** The swipe tool, index.ts:190-211. *)
Definition swipe_tool (appId : string) (dir : option direction)
    (start finish : option (Point.t number)) (duration : option number)
    (deviceId : option string) : M Tool.result :=
  match swipe_steps dir start finish duration with
  | None =>
      ret (tool_fail "Provide either 'direction' or both 'start' and 'end' points.")
  | Some steps =>
      let* run := executeSteps appId steps deviceId None in
      ret (by_exit_code (snd run) (flow_report (fst run) (snd run)))
  end.

(** The run_flow tool, index.ts:374-400. The scratch directory is made
    only for inline content without a file path, and removed after the
    run without a [finally]. *)
Definition run_flow_tool (yamlContent filePath deviceId : option string)
    : M Tool.result :=
  if negb (truthy_text yamlContent) && negb (truthy_text filePath) then
    ret (tool_fail "Provide either yamlContent or filePath.")
  else
    let* prepared :=
      if truthy_text yamlContent && negb (truthy_text filePath) then
        let* tmp := os_tmpdir in
        let* prefix := join_path tmp "maestro-mcp-flow-" in
        let* tmpDir := mkdtemp prefix in
        let* flowPath := join_path tmpDir "flow.yaml" in
        let* _ := writeFile flowPath (default "" yamlContent) in
        ret (flowPath, Some tmpDir)
      else ret (default "" filePath, None) in
    let* running := runFlow (fst prepared) deviceId None in
    let* result := await running in
    let* _ :=
      if truthy_text (snd prepared)
      then catch_ignore (rm (default "" (snd prepared)))
      else ret tt in
    ret (by_exit_code result (run_report result)).

End Tools.

(** ** The escaping rule in the words of the specification *)

(** Replace every character [c] of [s] by the text [f c]. *)
Fixpoint expand (f : ascii -> string) (s : string) : string :=
  match s with
  | EmptyString => EmptyString
  | String c rest => f c ++ expand f rest
  end.

(** First pass: every backslash becomes two backslashes. *)
Definition double_backslashes : string -> string :=
  expand (fun c => if Ascii.eqb c backslash_char then bs ++ bs
                   else String c EmptyString).

(** Second pass: every double quote becomes backslash, quote. *)
Definition escape_quotes : string -> string :=
  expand (fun c => if Ascii.eqb c dquote_char then bs ++ dq
                   else String c EmptyString).

Definition sequential_escape (s : string) : string :=
  escape_quotes (double_backslashes s).

(** The text of the step blocks, each followed by a newline. *)
Fixpoint blocks_text (blocks : list string) : string :=
  match blocks with
  | [] => EmptyString
  | block :: rest => block ++ nl ++ blocks_text rest
  end.

(** [typeof v === "object" && v !== null] *)
Definition is_object {number} (v : value number) : bool :=
  match v with VArr _ | VObj _ => true | _ => false end.

(** The launches of a fan-out over [ids], the first child being number
    [start], and what each of these children comes to; the reply to a
    launch is read with the log as it stands at that launch. *)
Definition flow_args (flowPath id : string) : list string :=
  (device_args (Some id) ++ ["test"; flowPath])%list.

Fixpoint spawn_events (flowPath : string) (t : Z) (ids : list string)
    (start : nat) : list effect :=
  match ids with
  | [] => []
  | id :: rest =>
      Spawn start "maestro" (flow_args flowPath id) t
        :: spawn_events flowPath t rest (S start)
  end.

Fixpoint device_runs (env : environment) (flowPath : string) (t : Z)
    (ids : list string) (log : list effect) : list (outcome ExecResult) :=
  match ids with
  | [] => []
  | id :: rest =>
      execStream_outcome (env.(spawn_reply) log "maestro" (flow_args flowPath id) t)
        :: device_runs env flowPath t rest
             (log ++ [Spawn (length log) "maestro" (flow_args flowPath id) t])%list
  end.

Fixpoint children (env : environment) (flowPath : string) (t : Z)
    (ids : list string) (log : list effect)
    : list (promise (string * ExecResult)) :=
  match ids with
  | [] => []
  | id :: rest =>
      {| pid := length log;
         fate := outcome_map (fun result => (id, result))
                   (execStream_outcome
                      (env.(spawn_reply) log "maestro" (flow_args flowPath id) t)) |}
        :: children env flowPath t rest
             (log ++ [Spawn (length log) "maestro" (flow_args flowPath id) t])%list
  end.

(** What a discovery command hands to the parser: its result, or the
    stand-in of the [catch] when [exec] rejected. *)
Definition discovery_result (b : execFile_behaviour) : ExecResult :=
  match b with
  | CallsBack a => exec_resolve a
  | ExecFileThrows _ => discovery_failed
  end.

(** What a child wrote before its first [close] or [error] event. *)
Definition is_data (ev : child_event) : bool :=
  match ev with StdoutData _ | StderrData _ => true | _ => false end.

Fixpoint stdout_of (events : list child_event) : string :=
  match events with
  | StdoutData chunk :: rest => chunk ++ stdout_of rest
  | _ :: rest => stdout_of rest
  | [] => EmptyString
  end.

Fixpoint stderr_of (events : list child_event) : string :=
  match events with
  | StderrData chunk :: rest => chunk ++ stderr_of rest
  | _ :: rest => stderr_of rest
  | [] => EmptyString
  end.

Section BlockLayout.
Context {number : Type} `{!Runtime number}.

(** A line of the second level: eight spaces, key, colon, value. *)
Definition nested_line (nkv : string * value number) : string :=
  "        " ++ fst nkv ++ ": " ++ interpolate (formatValue (snd nkv)).

(** The lines of one entry of an object block: six spaces, key, colon and
    the value on the same line, or, for a value that is itself an object,
    the key alone followed by the lines of the second level. *)
Definition entry_block (kv : string * value number) : string :=
  if is_object (snd kv)
  then "      " ++ fst kv ++ ":" ++ nl
       ++ join nl (map nested_line (Object_entries (snd kv)))
  else "      " ++ fst kv ++ ": " ++ interpolate (formatValue (snd kv)).

(** The text of a value on a [key: value] line, kind by kind: a string
    between double quotes, with its backslashes and then its double quotes
    escaped; a number or a boolean as its literal; anything else as its
    JSON text, where [undefined], which has none, comes out as the word. *)
Definition value_text (v : value number) : string :=
  match v with
  | VStr s => dq ++ sequential_escape s ++ dq
  | VNum n => Number_toString n
  | VBool b => bool_to_string b
  | VNull => "null"
  | VUndefined => "undefined"
  | VArr _ | VObj _ =>
      match JSON_stringify v with Some text => text | None => "undefined" end
  end.

(** A line one level further in: eight spaces, key, colon, value text. *)
Definition second_level_line (nkv : string * value number) : string :=
  "        " ++ fst nkv ++ ": " ++ value_text (snd nkv).

(** What one entry of the parameters contributes to the block: the line
    [key: value] after six spaces, or, for a value that is itself an
    object or an array, the key alone and then one line per entry of the
    value, one level further in. *)
Definition rendered_entry (kv : string * value number) : string :=
  match snd kv with
  | VArr _ | VObj _ =>
      "      " ++ fst kv ++ ":" ++ nl
      ++ join nl (map second_level_line (Object_entries (snd kv)))
  | _ => "      " ++ fst kv ++ ": " ++ value_text (snd kv)
  end.

End BlockLayout.

(** ** Worked inputs *)

(** An environment with [/tmp] as temporary directory, in which every
    scratch directory gets the suffix AbC123 and every write succeeds;
    [behaviour] tells what the child launched at a given length of the log
    does, [removal] how every [rm] ends, and no discovery command is
    installed. *)
Definition demo_env (behaviour : nat -> spawn_behaviour)
    (removal : result unit) : environment :=
  {| tmpdir := "/tmp";
     path_join := fun a b => a ++ "/" ++ b;
     mkdtemp_reply := fun _ prefix => Ok (prefix ++ "AbC123");
     writeFile_reply := fun _ _ _ => Ok tt;
     rm_reply := fun _ _ => removal;
     spawn_reply := fun log _ _ _ => behaviour (length log);
     execFile_reply := fun _ _ _ _ =>
       CallsBack (execFile_report (SpawnFailed "ENOENT") "" "");
     finish_time := fun pid => (10 - pid)%nat |}.

(** The child cannot even be launched, and the removal fails as well. *)
Definition hostile_env : environment :=
  demo_env (fun _ => SpawnThrows (TypeError "The argument 'args' is invalid"))
           (Throw (SystemError "EBUSY")).

(** The first child passes, the second one fails with exit code 1. *)
Definition two_device_env : environment :=
  demo_env (fun launch =>
              if (launch =? 2)%nat then Emits [StdoutData "OK"; Close (Some 0%Z)]
              else Emits [StderrData "Failed"; Close (Some 1%Z)])
           (Ok tt).

Definition plain_runtime : Runtime Z := integer_runtime [].

(** The simulator listing of tests/maestro-client.test.ts, followed by an
    entry that is [null]. *)
Definition simulators : value Z :=
  VObj [("devices",
         VObj [("com.apple.CoreSimulator.SimRuntime.iOS-17-5",
                VArr [VObj [("udid", VStr "5B6D77EF");
                            ("name", VStr "iPhone 16");
                            ("state", VStr "Booted");
                            ("isAvailable", VBool true)];
                      VObj [("udid", VStr "DEAD0000");
                            ("name", VStr "iPhone SE");
                            ("state", VStr "Shutdown");
                            ("isAvailable", VBool false)];
                      VObj [("udid", VStr "AAA-BBB");
                            ("name", VStr "iPad Pro")];
                      VNull;
                      VObj [("udid", VStr "LATE")]])])].

(** A runtime whose [JSON.parse] reads the text [simulators.json] as
    the listing above. *)
Definition simulator_runtime : Runtime Z :=
  integer_runtime [("simulators.json", simulators)].

Definition tab : string := String "009"%char EmptyString.

(** The disk is full: the scratch directory can be made but nothing can
    be written. *)
Definition full_disk_env : environment :=
  {| tmpdir := "/tmp";
     path_join := fun a b => a ++ "/" ++ b;
     mkdtemp_reply := fun _ prefix => Ok (prefix ++ "AbC123");
     writeFile_reply := fun _ _ _ => Throw (SystemError "ENOSPC");
     rm_reply := fun _ _ => Ok tt;
     spawn_reply := fun _ _ _ _ => Emits [Close (Some 0%Z)];
     execFile_reply := fun _ _ _ _ =>
       CallsBack (execFile_report (SpawnFailed "ENOENT") "" "");
     finish_time := fun pid => pid |}.



(** maestro is installed and prints its version on a line of its own. *)
Definition installed_env : environment :=
  {| tmpdir := "/tmp";
     path_join := fun a b => a ++ "/" ++ b;
     mkdtemp_reply := fun _ prefix => Ok (prefix ++ "AbC123");
     writeFile_reply := fun _ _ _ => Ok tt;
     rm_reply := fun _ _ => Ok tt;
     spawn_reply := fun _ _ _ _ => Emits [Close (Some 0%Z)];
     execFile_reply := fun _ _ _ _ =>
       CallsBack (execFile_report (Exited 0) (" 1.39.0" ++ nl) "");
     finish_time := fun pid => pid |}.

(** A listing with two runtimes and no entry that breaks the loop. *)
Definition two_runtimes : value Z :=
  VObj [("devices",
         VObj [("com.apple.CoreSimulator.SimRuntime.iOS-17-5",
                VArr [VObj [("udid", VStr "5B6D77EF");
                            ("name", VStr "iPhone 16");
                            ("state", VStr "Booted");
                            ("isAvailable", VBool true)];
                      VObj [("udid", VStr "DEAD0000");
                            ("name", VStr "iPhone SE");
                            ("state", VStr "Shutdown");
                            ("isAvailable", VBool false)]]);
               ("com.apple.CoreSimulator.SimRuntime.tvOS-18-0",
                VArr [VObj [("udid", VStr "TV-1");
                            ("name", VStr "Apple TV")]])])].

Definition inventory_runtime : Runtime Z :=
  integer_runtime [("simulators.json", simulators); ("two.json", two_runtimes)].

(** The adb listing of tests/maestro-client.test.ts. *)
Definition adb_listing : string :=
  "List of devices attached" ++ nl
  ++ "emulator-5554" ++ String "009"%char "device" ++ nl
  ++ "R58M42ABCDE" ++ String "009"%char "unauthorized" ++ nl.

(** ** Reading an escaped text back *)

(** What a reader of a double-quoted scalar does with the two escapes:
    a backslash stands for the character after it. *)
Fixpoint unescape (s : string) : string :=
  match s with
  | EmptyString => EmptyString
  | String c rest =>
      if Ascii.eqb c backslash_char then
        match rest with
        | String d rest' => String d (unescape rest')
        | EmptyString => EmptyString
        end
      else String c (unescape rest)
  end.

Definition is_special (c : ascii) : bool :=
  Ascii.eqb c backslash_char || Ascii.eqb c dquote_char.

(** The number of backslashes and double quotes of a text. *)
Fixpoint specials (s : string) : nat :=
  match s with
  | EmptyString => 0
  | String c rest => (if is_special c then 1 else 0) + specials rest
  end.

(** ** White space at the ends of a text *)

Definition starts_with_space (s : string) : bool :=
  match s with
  | String c _ => is_space c
  | EmptyString => false
  end.

Fixpoint ends_with_space (s : string) : bool :=
  match s with
  | EmptyString => false
  | String c rest =>
      match rest with
      | EmptyString => is_space c
      | String _ _ => ends_with_space rest
      end
  end.

(** ** Inventory parsing, line by line and entry by entry *)

Fixpoint string_forall (p : ascii -> bool) (s : string) : bool :=
  match s with
  | EmptyString => true
  | String c rest => p c && string_forall p rest
  end.

Definition not_space (c : ascii) : bool := negb (is_space c).

(** The device a line of the adb listing stands for, if any. *)
Definition device_of_line (line : string) : option Android.device :=
  match match_device_line (trim line) with
  | Some (id, status) => Some {| Android.id := id; Android.status := status |}
  | None => None
  end.

Definition differs (sep c : ascii) : bool := negb (Ascii.eqb c sep).

(** An Android record as the parser may produce it. *)
Definition valid_android (d : Android.device) : Prop :=
  d.(Android.status) ∈ status_words /\
  d.(Android.id) <> "" /\
  string_forall not_space d.(Android.id) = true.

Section InventoryEntries.
Context {number : Type} `{!Runtime number}.

(** What one device entry adds to the list when nothing throws: its record,
    or nothing when its flag is [false]. *)
Definition made (runtime : string) (device : value number)
    : option (Ios.device number) :=
  match get device "isAvailable" with
  | Ok flag =>
      if not_false flag then
        match ios_record runtime device with
        | Ok record => Some record
        | Throw _ => None
        end
      else None
  | Throw _ => None
  end.

(** An entry on which the loop body does not throw. *)
Definition sound_entry (runtime : string) (device : value number) : Prop :=
  exists flag, get device "isAvailable" = Ok flag /\
    (flag = VBool false \/ exists record, ios_record runtime device = Ok record).

(** An entry on which the loop body throws [e]. *)
Definition broken_entry (runtime : string) (device : value number) (e : exn) : Prop :=
  get device "isAvailable" = Throw e \/
  exists flag, get device "isAvailable" = Ok flag /\ flag <> VBool false /\
               ios_record runtime device = Throw e.

(** The entries listed under a runtime key, when they can be visited. *)
Definition entries_of (devices : value number) (runtime : string)
    : list (value number) :=
  match get devices runtime with
  | Ok listed => match iterate listed with Ok entries => entries | Throw _ => [] end
  | Throw _ => []
  end.

(** The records the entries under a runtime key give. *)
Definition records_of (devices : value number) (runtime : string)
    : list (Ios.device number) :=
  omap (made runtime) (entries_of devices runtime).

Definition sound_runtime (devices : value number) (runtime : string) : Prop :=
  exists listed entries,
    get devices runtime = Ok listed /\ iterate listed = Ok entries /\
    Forall (sound_entry runtime) entries.

End InventoryEntries.

(** * Properties *)

(** ** Text *)

Lemma append_assoc (a b c : string) : (a ++ b) ++ c = a ++ (b ++ c).
Proof. induction a as [|x a IH]; simpl; [reflexivity | now rewrite IH]. Qed.

Lemma append_nil_r (a : string) : a ++ "" = a.
Proof. induction a as [|x a IH]; simpl; [reflexivity | now rewrite IH]. Qed.

Lemma replace_all_expand (c : ascii) (r s : string) :
  replace_all c r s =
  expand (fun a => if Ascii.eqb a c then r else String a EmptyString) s.
Proof.
  induction s as [|a s IH]; simpl; [reflexivity|].
  rewrite IH. now destruct (Ascii.eqb a c).
Qed.

Lemma join_cons (sep x y : string) (l : list string) :
  join sep (x :: y :: l) = x ++ sep ++ join sep (y :: l).
Proof. reflexivity. Qed.

Lemma join_blocks (first : string) (blocks : list string) :
  join nl (first :: blocks) ++ nl = first ++ nl ++ blocks_text blocks.
Proof.
  revert first. induction blocks as [|b blocks IH]; intros first.
  - reflexivity.
  - rewrite join_cons, !append_assoc, IH. reflexivity.
Qed.

(** ** Flow document builder *)

Section BuilderProperties.
Context {number : Type} `{!Runtime number}.

Lemma push_all {A B} (f : A -> B) (l : list A) (init : list B) :
  fold_left (fun acc x => (acc ++ [f x])%list) l init = (init ++ map f l)%list.
Proof.
  revert init. induction l as [|x l IH]; intros init; simpl.
  - now rewrite app_nil_r.
  - rewrite IH, <- app_assoc. reflexivity.
Qed.

Lemma escapeYaml_two_passes (s : string) : escapeYaml s = sequential_escape s.
Proof.
  unfold escapeYaml, sequential_escape, escape_quotes, double_backslashes.
  now rewrite !replace_all_expand.
Qed.

(** C3: escapeYaml doubles the backslashes first and escapes the quotes
    second; on the text a, backslash, quote, b it yields a, three
    backslashes, quote, b. *)
Theorem escapeYaml_sequential :
  (forall s, escapeYaml s = sequential_escape s) /\
  escapeYaml ("a" ++ bs ++ dq ++ "b") = "a" ++ bs ++ bs ++ bs ++ dq ++ "b".
Proof.
  split; [|reflexivity].
  intros s. apply escapeYaml_two_passes.
Qed.

(** The order of the two passes matters: quotes first would double the
    backslash that escapes the quote. *)
Lemma escape_order_matters :
  double_backslashes (escape_quotes dq) <> escapeYaml dq.
Proof. discriminate. Qed.

(** C1: the document is the header, the separator and one block per step,
    in order, each produced by formatStep, joined by newlines, with one
    newline after the last line. *)
Theorem buildYaml_document (appId : string) (steps : list (FlowStep number)) :
  let blocks := map formatStep steps in
  buildYaml appId steps = join nl (("appId: " ++ appId) :: "---" :: blocks) ++ nl /\
  buildYaml appId steps = "appId: " ++ appId ++ nl ++ "---" ++ nl ++ blocks_text blocks /\
  length blocks = length steps /\
  (forall i step, steps !! i = Some step -> blocks !! i = Some (formatStep step)) /\
  buildYaml "com.example.app" [] = "appId: com.example.app" ++ nl ++ "---" ++ nl.
Proof.
  intros blocks.
  assert (E : buildYaml appId steps
              = join nl (("appId: " ++ appId) :: "---" :: blocks) ++ nl).
  { unfold buildYaml. now rewrite push_all. }
  repeat split.
  - exact E.
  - rewrite E, join_cons, !append_assoc, join_blocks. reflexivity.
  - apply length_map.
  - intros i step Hi. subst blocks.
    change (map formatStep steps) with (formatStep <$> steps).
    now apply list_lookup_fmap_Some_2.
Qed.

Lemma formatEntry_layout (kv : string * value number) :
  formatEntry kv = entry_block kv.
Proof. destruct kv as [k [| | b | n | s | items | props]]; reflexivity. Qed.

Lemma colon_space_newline (p a b : string) :
  p ++ ": " ++ a <> p ++ ":" ++ nl ++ b.
Proof.
  intros E. apply String.app_inj in E. discriminate.
Qed.

Lemma formatStep_object (c : string) (props : list (string * value number)) :
  formatStep {| command := c; params := VObj props |}
  = "- " ++ c ++ ":" ++ nl ++ join nl (map entry_block props).
Proof.
  unfold formatStep; simpl. now rewrite (map_ext _ _ formatEntry_layout).
Qed.

Lemma formatValue_text (v : value number) :
  interpolate (formatValue v) = value_text v.
Proof.
  destruct v as [| | b | n | s | items | props]; try reflexivity.
  simpl. now rewrite escapeYaml_two_passes.
Qed.

Lemma nested_lines_rendered (entries : list (string * value number)) :
  map (fun nkv => "        " ++ fst nkv ++ ": " ++ interpolate (formatValue (snd nkv)))
      entries
  = map second_level_line entries.
Proof.
  apply map_ext. intros nkv. unfold second_level_line.
  now rewrite formatValue_text.
Qed.

Lemma formatEntry_rendered (kv : string * value number) :
  formatEntry kv = rendered_entry kv.
Proof.
  destruct kv as [k v].
  destruct v as [| | b | n | s | items | props]; try reflexivity.
  - change (formatEntry (k, VStr s))
      with ("      " ++ k ++ ": " ++ interpolate (formatValue (VStr s))).
    now rewrite formatValue_text.
  - change (formatEntry (k, VArr items))
      with ("      " ++ k ++ ":" ++ nl
            ++ join nl (map (fun nkv => "        " ++ fst nkv ++ ": "
                                          ++ interpolate (formatValue (snd nkv)))
                            (Object_entries (VArr items)))).
    now rewrite nested_lines_rendered.
  - change (formatEntry (k, VObj props))
      with ("      " ++ k ++ ":" ++ nl
            ++ join nl (map (fun nkv => "        " ++ fst nkv ++ ": "
                                          ++ interpolate (formatValue (snd nkv)))
                            (Object_entries (VObj props)))).
    now rewrite nested_lines_rendered.
Qed.

(** C2: the rendering rules of formatStep, one per shape of the
    parameters, so that every shape has a rule: the bare line without
    parameters; a string in quotes, escaped; a number or boolean as its
    literal; for an object one block per entry, in order, each value
    written by its kind and the entries of a value that is itself an
    object one level further in; JSON for an array, which never takes the
    object-block form. *)
Theorem formatStep_rules (step : FlowStep number) :
  let c := step.(command) in
  match step.(params) with
  | VUndefined | VNull => formatStep step = "- " ++ c
  | VStr s => formatStep step = "- " ++ c ++ ": " ++ dq ++ sequential_escape s ++ dq
  | VNum n => formatStep step = "- " ++ c ++ ": " ++ Number_toString n
  | VBool b => formatStep step = "- " ++ c ++ ": " ++ bool_to_string b
  | VObj props =>
      formatStep step = "- " ++ c ++ ":" ++ nl ++ join nl (map rendered_entry props) /\
      length (map rendered_entry props) = length props /\
      (forall k s, formatEntry (k, VStr s)
         = "      " ++ k ++ ": " ++ dq ++ sequential_escape s ++ dq) /\
      (forall k n, formatEntry (k, VNum n)
         = "      " ++ k ++ ": " ++ Number_toString n) /\
      (forall k b, formatEntry (k, VBool b)
         = "      " ++ k ++ ": " ++ bool_to_string b) /\
      (forall k inner, formatEntry (k, VObj inner)
         = "      " ++ k ++ ":" ++ nl
           ++ join nl (map (fun nkv => "        " ++ fst nkv ++ ": "
                                         ++ value_text (snd nkv)) inner))
  | VArr items =>
      exists text,
        JSON_stringify (VArr items) = Some text /\
        formatStep step = "- " ++ c ++ ": " ++ text /\
        forall inner, formatStep step <> "- " ++ c ++ ":" ++ nl ++ inner
  end.
Proof.
  destruct step as [c p]. cbv zeta. cbn [command params].
  destruct p as [| | b | n | s | items | props]; try reflexivity.
  - unfold formatStep; simpl.
    now rewrite escapeYaml_two_passes.
  - eexists. split; [reflexivity|]. split; [reflexivity|].
    intros inner E. unfold formatStep in E; simpl in E.
    injection E as E. now apply colon_space_newline in E.
  - split; [|split; [apply length_map |
                     repeat split; intros; now rewrite formatEntry_rendered]].
    unfold formatStep; simpl. now rewrite (map_ext _ _ formatEntry_rendered).
Qed.

Lemma indexed_lookup {A} (items : list A) (start i : nat) (x : A) :
  items !! i = Some x ->
  indexed start items !! i = Some (index_to_string (start + i), x).
Proof.
  revert start i. induction items as [|y items IH]; intros start i H.
  - discriminate.
  - destruct i as [|i]; simpl in *.
    + injection H as ->. now rewrite Nat.add_0_r.
    + rewrite (IH (S start) i H). do 3 f_equal. lia.
Qed.

(** C9, as amended: inside an object block an array value is written as
    a second-level block keyed by its indices, not as compact JSON; compact
    JSON is what an array gets as the whole parameters and at the second
    level. *)
Theorem array_entry_block (c k : string) (items : list (value number))
    (before after : list (string * value number)) :
  let block := "      " ++ k ++ ":" ++ nl ++ join nl (map nested_line (indexed 0 items)) in
  formatStep {| command := c; params := VObj (before ++ (k, VArr items) :: after) |}
    = "- " ++ c ++ ":" ++ nl
      ++ join nl (map entry_block before ++ block :: map entry_block after) /\
  (forall i x, items !! i = Some x ->
     indexed 0 items !! i = Some (index_to_string i, x)) /\
  block <> "      " ++ k ++ ": " ++ interpolate (JSON_stringify (VArr items)) /\
  formatStep {| command := c; params := VArr items |}
    = "- " ++ c ++ ": " ++ interpolate (JSON_stringify (VArr items)) /\
  (forall nk, nested_line (nk, VArr items)
     = "        " ++ nk ++ ": " ++ interpolate (JSON_stringify (VArr items))).
Proof.
  intros block. repeat split.
  - rewrite formatStep_object, map_app. reflexivity.
  - intros i x H. now apply (indexed_lookup items 0 i x).
  - subst block. intros E. simpl in E.
    injection E as E. symmetry in E. now apply colon_space_newline in E.
Qed.

End BuilderProperties.

(** ** Process runner *)

Lemma handle_data (data : list child_event) (out err : string) :
  forallb is_data data = true ->
  fold_left handle data {| buf_stdout := out; buf_stderr := err; settled := None |}
  = {| buf_stdout := out ++ stdout_of data;
       buf_stderr := err ++ stderr_of data;
       settled := None |}.
Proof.
  revert out err. induction data as [|ev data IH]; intros out err Hdata.
  - simpl. now rewrite !append_nil_r.
  - simpl in Hdata. apply andb_prop in Hdata as [Hev Hdata].
    destruct ev as [chunk | chunk | status | msg]; try discriminate; simpl.
    + rewrite (IH _ _ Hdata), append_assoc. reflexivity.
    + rewrite (IH _ _ Hdata), append_assoc. reflexivity.
Qed.

Lemma handle_settled (events : list child_event) (st : stream_state) (r : ExecResult) :
  st.(settled) = Some r ->
  (fold_left handle events st).(settled) = Some r.
Proof.
  revert st. induction events as [|ev events IH]; intros st Hst; [exact Hst|].
  simpl. apply IH.
  destruct ev; simpl; try exact Hst; unfold resolve_once; simpl; now rewrite Hst.
Qed.

Lemma execStream_close (data rest : list child_event) (status : option Z) :
  forallb is_data data = true ->
  execStream_outcome (Emits (data ++ Close status :: rest))
  = Resolved {| stdout := stdout_of data; stderr := stderr_of data;
                exitCode := default 1%Z status |}.
Proof.
  intros Hdata. unfold execStream_outcome, stream_start.
  rewrite fold_left_app, (handle_data _ _ _ Hdata). simpl fold_left.
  erewrite handle_settled; [reflexivity|]. reflexivity.
Qed.

Lemma execStream_error (data rest : list child_event) (msg : string) :
  forallb is_data data = true ->
  execStream_outcome (Emits (data ++ ErrorEvent msg :: rest))
  = Resolved {| stdout := stdout_of data; stderr := stderr_of data ++ nl ++ msg;
                exitCode := 1 |}.
Proof.
  intros Hdata. unfold execStream_outcome, stream_start.
  rewrite fold_left_app, (handle_data _ _ _ Hdata). simpl fold_left.
  erewrite handle_settled; [reflexivity|]. reflexivity.
Qed.

(** C6: both modes of the process runner resolve and never reject,
    whatever happens to the process. Buffered: exit code 0 without an
    error, the numeric code of the error when it has one, otherwise 1, so
    the status of a child that exited by itself; absent output reads as the
    empty text. Streaming: the promise settles at the first close or error
    event, with the status reported by close, or 1 when close reports
    none. *)
Theorem process_runner_resolves :
  (forall cmd args timeoutMs env log a,
     env.(execFile_reply) log cmd args (default 120000%Z timeoutMs) = CallsBack a ->
     exists p, fst (exec cmd args timeoutMs env log) = Resolved p /\
               p.(fate) = Resolved (exec_resolve a)) /\
  (forall a,
     (exec_resolve a).(exitCode)
       = match a.(cb_error) with
         | None => 0%Z
         | Some error => match error.(code) with CodeNumber n => n | _ => 1%Z end
         end /\
     (exec_resolve a).(stdout) = default "" a.(cb_stdout) /\
     (exec_resolve a).(stderr) = default "" a.(cb_stderr)) /\
  (forall t out err,
     (exec_resolve (execFile_report t out err)).(exitCode)
       = match t with Exited status => status | _ => 1%Z end) /\
  (forall cmd args timeoutMs env log events,
     env.(spawn_reply) log cmd args (default 180000%Z timeoutMs) = Emits events ->
     exists p, fst (execStream cmd args timeoutMs env log) = Resolved p /\
               p.(fate) = execStream_outcome (Emits events) /\
               forall e, p.(fate) <> Rejected e) /\
  (forall data status rest,
     forallb is_data data = true ->
     execStream_outcome (Emits (data ++ Close status :: rest))
       = Resolved {| stdout := stdout_of data; stderr := stderr_of data;
                     exitCode := default 1%Z status |}) /\
  (forall data msg rest,
     forallb is_data data = true ->
     exists r,
       execStream_outcome (Emits (data ++ ErrorEvent msg :: rest)) = Resolved r /\
       r.(exitCode) = 1%Z).
Proof.
  split; [|split; [|split; [|split; [|split]]]].
  - intros cmd args timeoutMs env log a Hreply. eexists. split; [reflexivity|].
    simpl. now rewrite Hreply.
  - intros a. repeat split.
  - intros [status | signal | errno] out err; simpl; try reflexivity.
    destruct (Z.eqb_spec status 0) as [->|]; reflexivity.
  - intros cmd args timeoutMs env log events Hreply. eexists.
    split; [reflexivity|]. simpl. rewrite Hreply. split; [reflexivity|].
    intros e. unfold execStream_outcome.
    now destruct (settled (fold_left handle events stream_start)).
  - intros data status rest. apply execStream_close.
  - intros data msg rest Hdata. eexists. split; [now apply execStream_error|].
    reflexivity.
Qed.

(** C7, as amended: a missing executable gives exit code 1 in both modes
    and nothing is thrown; the streaming mode puts the message of the
    error into stderr, the buffered mode returns the stderr it was given
    (empty when the child never started) and leaves the message out. *)
Theorem missing_executable_reported :
  (forall errno out err,
     exec_outcome (CallsBack (execFile_report (SpawnFailed errno) out err))
       = Resolved {| stdout := ""; stderr := ""; exitCode := 1 |}) /\
  (forall error out err,
     (exec_resolve {| cb_error := error; cb_stdout := out; cb_stderr := err |}).(stderr)
       = default "" err) /\
  (forall data msg rest,
     forallb is_data data = true ->
     execStream_outcome (Emits (data ++ ErrorEvent msg :: rest))
       = Resolved {| stdout := stdout_of data;
                     stderr := stderr_of data ++ nl ++ msg;
                     exitCode := 1 |}).
Proof.
  repeat split. intros data msg rest. apply execStream_error.
Qed.

(** ** Execution orchestrator *)



Lemma track_keeps (dirs : list string) (e : effect) (dir : string) :
  (forall path r, e <> Rm path r) -> dir ∈ dirs -> dir ∈ track dirs e.
Proof.
  intros Hrm Hin. destruct e as [p [d|]| | path [u|] | | |]; simpl; try exact Hin.
  - apply elem_of_app. now left.
  - now destruct (Hrm path (Ok u)).
Qed.

Lemma fold_track_keeps (later : list effect) (dirs : list string) (dir : string) :
  (forall path r, Rm path r ∉ later) -> dir ∈ dirs ->
  dir ∈ fold_left track later dirs.
Proof.
  revert dirs. induction later as [|e later IH]; intros dirs Hrm Hin; [exact Hin|].
  simpl. apply IH.
  - intros path r Hmem. apply (Hrm path r). now right.
  - apply track_keeps; [|exact Hin].
    intros path r ->. apply (Hrm path r). now left.
Qed.

Lemma tracked_after_mkdtemp (log later : list effect) (prefix dir : string) :
  (forall path r, Rm path r ∉ later) ->
  dir ∈ scratch_dirs (log ++ Mkdtemp prefix (Ok dir) :: later).
Proof.
  intros Hrm. unfold scratch_dirs. rewrite fold_left_app. simpl.
  apply fold_track_keeps; [exact Hrm|]. apply elem_of_app. right. now left.
Qed.


(** *** Waiting for several promises *)

Lemma insert_by_perm {A} (rank : A -> nat) (x : A) (l : list A) :
  insert_by rank x l ≡ₚ x :: l.
Proof.
  induction l as [|y l IH]; simpl; [reflexivity|].
  destruct (rank x <=? rank y)%nat; [reflexivity|].
  rewrite IH. apply Permutation_swap.
Qed.

Lemma sort_by_perm {A} (rank : A -> nat) (l : list A) : sort_by rank l ≡ₚ l.
Proof.
  induction l as [|x l IH]; simpl; [reflexivity|].
  unfold sort_by in *. simpl. now rewrite insert_by_perm, IH.
Qed.

Lemma fates_resolved {A} (ps : list (promise A)) (vs : list A) :
  map fate ps = map Resolved vs ->
  Forall (fun p => exists v, p.(fate) = Resolved v) ps.
Proof.
  revert vs. induction ps as [|p ps IH]; intros [|v vs] H; try discriminate;
    constructor.
  - injection H as H _. eauto.
  - injection H as _ H. eauto.
Qed.

Lemma filter_ready {A} (ps : list (promise A)) :
  Forall (fun p => exists v, p.(fate) = Resolved v) ps ->
  filter (fun p => is_pending p = false) ps = ps.
Proof.
  induction 1 as [|p ps [v Hp] _ IH]; [reflexivity|].
  rewrite filter_cons_True, IH; [reflexivity|].
  unfold is_pending. now rewrite Hp.
Qed.

Lemma none_pending {A} (ps : list (promise A)) :
  Forall (fun p => exists v, p.(fate) = Resolved v) ps ->
  forallb (fun p => negb (is_pending p)) ps = true.
Proof.
  induction 1 as [|p ps [v Hp] _ IH]; [reflexivity|].
  simpl. unfold is_pending at 1. now rewrite Hp, IH.
Qed.

Lemma settle_resolved {A} (order : list (promise A)) (log : list effect) :
  Forall (fun p => exists v, p.(fate) = Resolved v) order ->
  settle_in_order order log
  = (None, (log ++ map (fun p => Settle p.(pid)) order)%list).
Proof.
  intros H. revert log. induction H as [|p ps [v Hp] _ IH]; intros log; simpl.
  - now rewrite app_nil_r.
  - rewrite Hp, IH, <- app_assoc. reflexivity.
Qed.

Lemma values_resolved {A} (ps : list (promise A)) (vs : list A) :
  map fate ps = map Resolved vs -> values ps = vs.
Proof.
  revert vs. induction ps as [|p ps IH]; intros [|v vs] H; try discriminate;
    [reflexivity|].
  injection H as Hp H. specialize (IH vs H).
  unfold values in *. simpl. rewrite Hp. simpl. now f_equal.
Qed.

Lemma Promise_all_resolved {A} (ps : list (promise A)) (vs : list A)
    (env : environment) (log : list effect) :
  map fate ps = map Resolved vs ->
  exists order,
    order ≡ₚ ps /\
    Promise_all ps env log
    = (Resolved vs, (log ++ map (fun p => Settle p.(pid)) order)%list).
Proof.
  intros H. pose proof (fates_resolved ps vs H) as Hall.
  exists (sort_by (fun p => env.(finish_time) p.(pid)) ps).
  split; [apply sort_by_perm|].
  unfold Promise_all. rewrite (filter_ready ps Hall).
  rewrite settle_resolved.
  - now rewrite (none_pending ps Hall), (values_resolved ps vs H).
  - eapply Permutation_Forall; [|exact Hall]. symmetry. apply sort_by_perm.
Qed.

Lemma insert_by_map {A B} (f : A -> B) (rank : B -> nat) (x : A) (l : list A) :
  map f (insert_by (fun a => rank (f a)) x l) = insert_by rank (f x) (map f l).
Proof.
  induction l as [|y l IH]; simpl; [reflexivity|].
  destruct (rank (f x) <=? rank (f y))%nat; simpl; [reflexivity|].
  now rewrite IH.
Qed.

Lemma sort_by_map {A B} (f : A -> B) (rank : B -> nat) (l : list A) :
  map f (sort_by (fun a => rank (f a)) l) = sort_by rank (map f l).
Proof.
  unfold sort_by. induction l as [|x l IH]; simpl; [reflexivity|].
  now rewrite insert_by_map, IH.
Qed.

(** When every promise resolves, they settle in the order of their
    finishing times. *)
Lemma Promise_all_in_order {A} (ps : list (promise A)) (vs : list A)
    (env : environment) (log : list effect) :
  map fate ps = map Resolved vs ->
  Promise_all ps env log
  = (Resolved vs,
     (log ++ map Settle (sort_by env.(finish_time) (map pid ps)))%list).
Proof.
  intros H. pose proof (fates_resolved ps vs H) as Hall.
  unfold Promise_all. rewrite (filter_ready ps Hall).
  rewrite settle_resolved.
  - rewrite (none_pending ps Hall), (values_resolved ps vs H).
    now rewrite <- (sort_by_map pid env.(finish_time)), map_map.
  - eapply Permutation_Forall; [|exact Hall]. symmetry. apply sort_by_perm.
Qed.

(** *** The result mapping *)





Section OrchestratorProperties.
Context {number : Type} `{!Runtime number}.


Lemma launch_all (flowPath : string) (timeoutMs : option Z)
    (ids : list string) (env : environment) (log : list effect) :
  let t := default 180000%Z timeoutMs in
  mapM (runOnDevice flowPath timeoutMs) ids env log
  = (Resolved (children env flowPath t ids log),
     (log ++ spawn_events flowPath t ids (length log))%list).
Proof.
  intros t. revert log. induction ids as [|id ids IH]; intros log; simpl.
  - unfold ret. now rewrite app_nil_r.
  - unfold bind at 1. unfold runOnDevice at 1. unfold bind at 1.
    unfold runFlow, execStream at 1.
    simpl default. fold t. unfold ret at 1. cbv beta iota.
    unfold bind at 1. rewrite IH. unfold ret. cbv beta iota.
    rewrite length_app, Nat.add_1_r, <- app_assoc. reflexivity.
Qed.





End OrchestratorProperties.

(** ** Device inventory *)

Section InventoryProperties.
Context {number : Type} `{!Runtime number}.

Lemma not_false_spec (flag : value number) :
  not_false flag = true <-> flag <> VBool false.
Proof.
  destruct flag as [| | [|] | | | |]; simpl; split; intros H; try congruence;
    try discriminate.
Qed.

(** Every record the inner loop adds comes from an entry whose flag is not
    [false]. *)
Lemma scan_devices_only (runtime : string) (entries : list (value number))
    (ios : list (Ios.device number)) (record : Ios.device number) :
  record ∈ (scan_devices runtime entries ios).1 ->
  record ∈ ios \/
  exists device flag,
    device ∈ entries /\ get device "isAvailable" = Ok flag /\
    flag <> VBool false /\ ios_record runtime device = Ok record.
Proof.
  revert ios. induction entries as [|device entries IH]; intros ios Hin; simpl in Hin.
  - now left.
  - destruct (get device "isAvailable") as [flag|e] eqn:Hflag; [|now left].
    destruct (not_false flag) eqn:Hnf.
    + destruct (ios_record runtime device) as [made|e] eqn:Hrec; [|now left].
      destruct (IH _ Hin) as [Hold | (d & f & Hd & Hf & Hne & Hr)].
      * apply elem_of_app in Hold as [Hold | Hnew]; [now left|].
        apply list_elem_of_singleton in Hnew as ->. right.
        exists device, flag. repeat split; auto; [now left|].
        now apply not_false_spec.
      * right. exists d, f. repeat split; auto. now right.
    + destruct (IH _ Hin) as [Hold | (d & f & Hd & Hf & Hne & Hr)]; [now left|].
      right. exists d, f. repeat split; auto. now right.
Qed.

Lemma scan_runtimes_only (devices : value number) (runtimes : list string)
    (ios : list (Ios.device number)) (record : Ios.device number) :
  record ∈ (scan_runtimes devices runtimes ios).1 ->
  record ∈ ios \/
  exists runtime listed entries device flag,
    runtime ∈ runtimes /\ get devices runtime = Ok listed /\
    iterate listed = Ok entries /\ device ∈ entries /\
    get device "isAvailable" = Ok flag /\ flag <> VBool false /\
    ios_record runtime device = Ok record.
Proof.
  revert ios. induction runtimes as [|runtime runtimes IH]; intros ios Hin;
    simpl in Hin.
  - now left.
  - destruct (get devices runtime) as [listed|e] eqn:Hget; [|now left].
    destruct (iterate listed) as [entries|e] eqn:Hit; [|now left].
    destruct (scan_devices runtime entries ios) as [ios' [e|]] eqn:Hscan.
    + pose proof (scan_devices_only runtime entries ios record) as Hinner.
      rewrite Hscan in Hinner.
      destruct (Hinner Hin) as [Hold | (d & f & Hd & Hf & Hne & Hr)]; [now left|].
      right. exists runtime, listed, entries, d, f. repeat split; auto. now left.
    + destruct (IH _ Hin) as [Hmid | (rt & l & es & d & f & Hrt & Hrest)].
      * pose proof (scan_devices_only runtime entries ios record) as Hinner.
        rewrite Hscan in Hinner.
        destruct (Hinner Hmid) as [Hold | (d & f & Hd & Hf & Hne & Hr)]; [now left|].
        right. exists runtime, listed, entries, d, f. repeat split; auto. now left.
      * right. exists rt, l, es, d, f. split; [now right|exact Hrest].
Qed.

(** C8: the two discovery commands do not affect each other and
    listDevices never fails: each list is parsed from the outcome of its
    own command; a command that exits with a code other than 0, or whose
    call throws, gives the empty list; text that JSON.parse rejects gives
    the empty iOS list; and an iOS record is only ever made from a device
    entry whose isAvailable is not false. *)
Theorem listDevices_isolated :
  (forall env log,
     let adb := env.(execFile_reply) log "adb" ["devices"] 120000%Z in
     let log1 := (log ++ [ExecFile (length log) "adb" ["devices"] 120000%Z])%list in
     let xcrun :=
       env.(execFile_reply) log1 "xcrun" ["simctl"; "list"; "devices"; "--json"]
         120000%Z in
     exists log',
       listDevices env log
       = (Resolved {| android := parse_android (discovery_result adb);
                      ios := parse_ios (discovery_result xcrun) |}, log')) /\
  (forall e, discovery_result (ExecFileThrows e) = discovery_failed) /\
  (forall r : ExecResult, r.(exitCode) <> 0%Z ->
     parse_android r = [] /\ parse_ios r = []) /\
  (forall (r : ExecResult) e, JSON_parse r.(stdout) = Throw e -> parse_ios r = []) /\
  (forall (r : ExecResult) record, record ∈ parse_ios r ->
     exists data found runtime listed entries device flag,
       JSON_parse r.(stdout) = Ok data /\
       get data "devices" = Ok found /\
       get (if truthy found then found else VObj []) runtime = Ok listed /\
       iterate listed = Ok entries /\ device ∈ entries /\
       get device "isAvailable" = Ok flag /\ flag <> VBool false /\
       ios_record runtime device = Ok record) /\
  (forall runtime device rest ios,
     get device "isAvailable" = Ok (VBool false) ->
     scan_devices runtime (device :: rest) ios = scan_devices runtime rest ios) /\
  (forall runtime device rest ios flag record,
     get device "isAvailable" = Ok flag -> flag <> VBool false ->
     ios_record runtime device = Ok record ->
     scan_devices runtime (device :: rest) ios
     = scan_devices runtime rest (ios ++ [record])).
Proof.
  split; [|split; [|split; [|split; [|split; [|split]]]]].
  - intros env log adb log1 xcrun.
    unfold listDevices, bind, exec. simpl default. fold adb. cbv beta iota.
    fold log1. fold xcrun.
    edestruct (Promise_all_resolved
                 [catch_with discovery_failed
                    {| pid := length log; fate := exec_outcome adb |};
                  catch_with discovery_failed
                    {| pid := length log1; fate := exec_outcome xcrun |}]
                 [discovery_result adb; discovery_result xcrun] env)
      as (order & _ & Hall).
    { now destruct adb, xcrun. }
    rewrite Hall. simpl. eexists. reflexivity.
  - reflexivity.
  - intros r Hcode. unfold parse_android, parse_ios.
    destruct (Z.eqb_spec (exitCode r) 0); [contradiction|]. now split.
  - intros r e Hparse. unfold parse_ios, ios_try. rewrite Hparse.
    now destruct (exitCode r =? 0)%Z.
  - intros r record Hin. unfold parse_ios in Hin.
    destruct (exitCode r =? 0)%Z; [|now apply elem_of_nil in Hin].
    unfold ios_try in Hin.
    destruct (JSON_parse (stdout r)) as [data|e] eqn:Hparse;
      [|now apply elem_of_nil in Hin].
    destruct (get data "devices") as [found|e] eqn:Hfound;
      [|now apply elem_of_nil in Hin].
    apply scan_runtimes_only in Hin
      as [Hin | (rt & l & es & d & f & _ & Hget & Hit & Hd & Hf & Hne & Hr)];
      [now apply elem_of_nil in Hin|].
    exists data, found, rt, l, es, d, f. repeat split; auto.
  - intros runtime device rest ios Hflag. simpl. now rewrite Hflag.
  - intros runtime device rest ios flag record Hflag Hne Hrec. simpl.
    rewrite Hflag, Hrec. apply not_false_spec in Hne. now rewrite Hne.
Qed.

End InventoryProperties.

(** ** The properties at work on concrete inputs *)

Example escapeYaml_test_quotes :
  escapeYaml (dq ++ bs ++ dq) = bs ++ dq ++ bs ++ bs ++ bs ++ dq.
Proof. reflexivity. Qed.

Example buildYaml_single_step :
  buildYaml (Runtime0 := plain_runtime) "com.test.app"
    [{| command := "launchApp"; params := VStr "com.test.app" |}]
  = "appId: com.test.app" ++ nl ++ "---" ++ nl
    ++ "- launchApp: " ++ dq ++ "com.test.app" ++ dq ++ nl.
Proof. reflexivity. Qed.

Example formatStep_nested_point :
  formatStep (Runtime0 := plain_runtime)
    {| command := "tapOn";
       params := VObj [("point", VObj [("x", VNum 50%Z); ("y", VNum 100%Z)])] |}
  = "- tapOn:" ++ nl ++ "      point:" ++ nl
    ++ "        x: 50" ++ nl ++ "        y: 100".
Proof. reflexivity. Qed.

Lemma buildYaml_document_witness :
  [{| command := "scroll"; params := @VUndefined Z |}] !! 0%nat
    = Some {| command := "scroll"; params := VUndefined |} /\
  map (formatStep (Runtime0 := plain_runtime))
      [{| command := "scroll"; params := VUndefined |}] !! 0%nat
    = Some "- scroll".
Proof.
  split; [reflexivity|].
  apply (proj1 (proj2 (proj2 (proj2
           (buildYaml_document (Runtime0 := plain_runtime) "com.test"
              [{| command := "scroll"; params := VUndefined |}]))))
           0%nat {| command := "scroll"; params := VUndefined |}).
  reflexivity.
Defined.

(** C9, as first stated, fails: an array below the first level is written
    as compact JSON although it is not the whole parameters value. *)
Lemma nested_array_counterexample :
  let inner : value Z := VArr [VNum 1%Z; VNum 2%Z] in
  let step := {| command := "swipe"; params := VObj [("a", VObj [("b", inner)])] |} in
  step.(params) <> inner /\
  JSON_stringify (Runtime0 := plain_runtime) inner = Some "[1,2]" /\
  formatStep (Runtime0 := plain_runtime) step
  = "- swipe:" ++ nl ++ "      a:" ++ nl ++ "        b: [1,2]".
Proof. repeat split. discriminate. Qed.

Lemma array_entry_block_witness :
  [@VNum Z 10%Z; VNum 20%Z] !! 0%nat = Some (VNum 10%Z) /\
  indexed 0 [@VNum Z 10%Z; VNum 20%Z] !! 0%nat = Some ("0", VNum 10%Z) /\
  formatStep (Runtime0 := plain_runtime)
    {| command := "swipe"; params := VObj [("path", VArr [VNum 10%Z; VNum 20%Z])] |}
  = "- swipe:" ++ nl ++ "      path:" ++ nl
    ++ "        0: 10" ++ nl ++ "        1: 20".
Proof.
  pose proof (array_entry_block (Runtime0 := plain_runtime) "swipe" "path"
                [VNum 10%Z; VNum 20%Z] [] []) as (Hblock & Hindex & _).
  split; [reflexivity|]. split; [now apply Hindex|exact Hblock].
Defined.






Lemma process_runner_resolves_witness :
  forallb is_data [StdoutData "Test "; StdoutData "passed"] = true /\
  execStream_outcome
    (Emits ([StdoutData "Test "; StdoutData "passed"] ++ Close None :: []))
  = Resolved {| stdout := "Test passed"; stderr := ""; exitCode := 1 |}.
Proof.
  split; [reflexivity|].
  apply (proj1 (proj2 (proj2 (proj2 (proj2 process_runner_resolves))))
           [StdoutData "Test "; StdoutData "passed"] None []).
  reflexivity.
Defined.

(** C7, as first stated, fails in the buffered mode: when the executable
    is missing the result has exit code 1 but its stderr is empty. *)
Lemma buffered_missing_executable_counterexample :
  exists r,
    exec_outcome (CallsBack (execFile_report (SpawnFailed "ENOENT") "" "")) = Resolved r /\
    r.(exitCode) = 1%Z /\ r.(stderr) = "".
Proof. eexists. repeat split. Qed.

Lemma missing_executable_reported_witness :
  forallb is_data [StderrData "partial"] = true /\
  execStream_outcome
    (Emits ([StderrData "partial"] ++ ErrorEvent "spawn maestro ENOENT"
              :: [Close (Some (-2)%Z)]))
  = Resolved {| stdout := "";
                stderr := "partial" ++ nl ++ "spawn maestro ENOENT";
                exitCode := 1 |}.
Proof.
  split; [reflexivity|].
  apply (proj2 (proj2 missing_executable_reported)
           [StderrData "partial"] "spawn maestro ENOENT" [Close (Some (-2)%Z)]).
  reflexivity.
Defined.

Example parse_android_test :
  parse_android
    {| stdout := "List of devices attached" ++ nl
                 ++ "emulator-5554" ++ tab ++ "device" ++ nl
                 ++ "ABC123" ++ tab ++ "offline" ++ nl
                 ++ "random_noise" ++ nl ++ nl;
       stderr := ""; exitCode := 0 |}
  = [{| Android.id := "emulator-5554"; Android.status := "device" |};
     {| Android.id := "ABC123"; Android.status := "offline" |}].
Proof. reflexivity. Qed.

(** The unavailable simulator is left out; the [null] entry ends the loop
    with the records made so far. *)
Example parse_ios_test :
  parse_ios (Runtime0 := simulator_runtime)
    {| stdout := "simulators.json"; stderr := ""; exitCode := 0 |}
  = [{| Ios.id := VStr "5B6D77EF"; Ios.name := "iPhone 16 (iOS-17-5)";
        Ios.status := "booted" |};
     {| Ios.id := VStr "AAA-BBB"; Ios.name := "iPad Pro (iOS-17-5)";
        Ios.status := "unknown" |}].
Proof. reflexivity. Qed.

Lemma listDevices_isolated_witness :
  discovery_failed.(exitCode) <> 0%Z /\
  parse_android discovery_failed = [] /\
  parse_ios (Runtime0 := simulator_runtime) discovery_failed = [].
Proof.
  split; [discriminate|].
  apply (proj1 (proj2 (proj2 (listDevices_isolated (Runtime0 := simulator_runtime))))
           discovery_failed).
  discriminate.
Defined.

(** * Further properties of the code *)

(** ** Flow document builder *)

Lemma expand_app (f : ascii -> string) (a b : string) :
  expand f (a ++ b) = expand f a ++ expand f b.
Proof.
  induction a as [|c a IH]; simpl; [reflexivity|].
  now rewrite IH, append_assoc.
Qed.

Lemma escapeYaml_concat (a b : string) :
  escapeYaml (a ++ b) = escapeYaml a ++ escapeYaml b.
Proof.
  rewrite !escapeYaml_two_passes.
  unfold sequential_escape, escape_quotes, double_backslashes.
  now rewrite !expand_app.
Qed.

Lemma escapeYaml_cons (c : ascii) (s : string) :
  escapeYaml (String c s)
  = (if Ascii.eqb c backslash_char then bs ++ bs
     else if Ascii.eqb c dquote_char then bs ++ dq
     else String c EmptyString) ++ escapeYaml s.
Proof.
  change (String c s) with (String c EmptyString ++ s).
  rewrite escapeYaml_concat. f_equal.
  unfold escapeYaml. simpl.
  destruct (Ascii.eqb_spec c backslash_char) as [->|Hb]; [reflexivity|].
  simpl. destruct (Ascii.eqb c dquote_char); reflexivity.
Qed.

Lemma unescape_escapeYaml (s : string) : unescape (escapeYaml s) = s.
Proof.
  induction s as [|c s IH]; [reflexivity|].
  rewrite escapeYaml_cons.
  destruct (Ascii.eqb_spec c backslash_char) as [->|Hb].
  - simpl. now rewrite IH.
  - destruct (Ascii.eqb_spec c dquote_char) as [->|Hq].
    + simpl. now rewrite IH.
    + simpl. apply Ascii.eqb_neq in Hb. rewrite Hb. now rewrite IH.
Qed.

(** X1: escapeYaml loses nothing: two different texts never have the same
    escaped form. *)
Theorem escapeYaml_injective (s1 s2 : string) :
  escapeYaml s1 = escapeYaml s2 -> s1 = s2.
Proof.
  intros H. rewrite <- (unescape_escapeYaml s1), <- (unescape_escapeYaml s2).
  now rewrite H.
Qed.

(** X2: escaping a concatenation is concatenating the escaped parts. *)
Theorem escapeYaml_app (a b : string) :
  escapeYaml (a ++ b) = escapeYaml a ++ escapeYaml b.
Proof. apply escapeYaml_concat. Qed.

Lemma length_append (a b : string) :
  String.length (a ++ b) = (String.length a + String.length b)%nat.
Proof. induction a as [|c a IH]; simpl; [reflexivity | now rewrite IH]. Qed.

Lemma escapeYaml_length (s : string) :
  String.length (escapeYaml s) = (String.length s + specials s)%nat.
Proof.
  induction s as [|c s IH]; [reflexivity|].
  rewrite escapeYaml_cons, length_append, IH. simpl. unfold is_special.
  destruct (Ascii.eqb c backslash_char); simpl; [lia|].
  destruct (Ascii.eqb c dquote_char); simpl; lia.
Qed.

Lemma escapeYaml_clean (s : string) : specials s = 0%nat -> escapeYaml s = s.
Proof.
  induction s as [|c s IH]; [reflexivity|]. simpl. intros H.
  rewrite escapeYaml_cons. unfold is_special in H.
  destruct (Ascii.eqb c backslash_char); simpl in H; [lia|].
  destruct (Ascii.eqb c dquote_char); simpl in H; [lia|].
  simpl. now rewrite IH.
Qed.

(** X3: every backslash and every double quote makes the escaped text one
    character longer, and nothing else does; so a text comes back unchanged
    exactly when it has neither. *)
Theorem escapeYaml_growth (s : string) :
  String.length (escapeYaml s) = (String.length s + specials s)%nat /\
  (escapeYaml s = s <-> specials s = 0%nat).
Proof.
  split; [apply escapeYaml_length|]. split.
  - intros H. pose proof (escapeYaml_length s) as L. rewrite H in L. lia.
  - apply escapeYaml_clean.
Qed.

Section MoreBuilderProperties.
Context {number : Type} `{!Runtime number}.

Lemma buildYaml_layout (appId : string) (steps : list (FlowStep number)) :
  buildYaml appId steps
  = "appId: " ++ appId ++ nl ++ "---" ++ nl ++ blocks_text (map formatStep steps).
Proof.
  unfold buildYaml. rewrite push_all. simpl app.
  rewrite join_cons, !append_assoc, join_blocks. reflexivity.
Qed.

Lemma blocks_text_app (a b : list string) :
  blocks_text (a ++ b) = blocks_text a ++ blocks_text b.
Proof.
  induction a as [|x a IH]; simpl; [reflexivity|].
  now rewrite IH, !append_assoc.
Qed.

(** X4: the document of a longer flow starts with the document of its first
    steps and goes on with the blocks of the other steps. *)
Theorem buildYaml_app (appId : string) (first more : list (FlowStep number)) :
  buildYaml appId (first ++ more)
  = buildYaml appId first ++ blocks_text (map formatStep more).
Proof.
  rewrite !buildYaml_layout, map_app, blocks_text_app, !append_assoc.
  reflexivity.
Qed.

(** X5: parameters that are an object without properties give the line
    with the colon followed by an empty line, so a document whose last
    step is such a step ends with two newlines. *)
Theorem empty_object_step (appId c : string) (steps : list (FlowStep number)) :
  formatStep {| command := c; params := VObj [] |} = "- " ++ c ++ ":" ++ nl /\
  buildYaml appId (steps ++ [{| command := c; params := VObj [] |}])
  = buildYaml appId steps ++ "- " ++ c ++ ":" ++ nl ++ nl.
Proof.
  split; [reflexivity|].
  rewrite !buildYaml_layout, map_app, blocks_text_app, !append_assoc.
  simpl blocks_text. unfold formatStep; simpl.
  rewrite !append_assoc. reflexivity.
Qed.

End MoreBuilderProperties.

(** ** Process runner *)

Lemma pending_only_data (events : list child_event) (st : stream_state) :
  st.(settled) = None ->
  (fold_left handle events st).(settled) = None ->
  forallb is_data events = true.
Proof.
  revert st. induction events as [|ev events IH]; intros st Hst Hend; [reflexivity|].
  simpl in *. destruct ev as [chunk | chunk | status | msg]; simpl.
  - apply (IH (handle st (StdoutData chunk))); [exact Hst | exact Hend].
  - apply (IH (handle st (StderrData chunk))); [exact Hst | exact Hend].
  - rewrite (handle_settled events _
               {| stdout := buf_stdout st; stderr := buf_stderr st;
                  exitCode := default 1%Z status |}) in Hend; [discriminate|].
    unfold handle, resolve_once. simpl. now rewrite Hst.
  - rewrite (handle_settled events _
               {| stdout := buf_stdout st; stderr := buf_stderr st ++ nl ++ msg;
                  exitCode := 1 |}) in Hend; [discriminate|].
    unfold handle, resolve_once. simpl. now rewrite Hst.
Qed.

(** X6: the promise of execStream stays pending for ever exactly when the
    child emits neither a close nor an error event. *)
Theorem execStream_pending_iff (events : list child_event) :
  execStream_outcome (Emits events) = Pending <-> forallb is_data events = true.
Proof.
  unfold execStream_outcome. split.
  - intros H.
    destruct (settled (fold_left handle events stream_start)) eqn:E; [discriminate|].
    now apply (pending_only_data events stream_start).
  - intros H. unfold stream_start. now rewrite (handle_data events "" "" H).
Qed.

(** ** Execution orchestrator *)


Lemma settle_rejected {A} (order : list (promise A)) (log : list effect)
    (p : promise A) (e : exn) :
  p ∈ order -> p.(fate) = Rejected e ->
  exists e' p' settled,
    p' ∈ order /\ p'.(fate) = Rejected e' /\
    settle_in_order order log = (Some e', (log ++ map Settle settled)%list).
Proof.
  revert log. induction order as [|q order IH]; intros log Hin Hp.
  - now apply elem_of_nil in Hin.
  - simpl. destruct (fate q) as [a|eq|] eqn:Eq.
    + apply elem_of_cons in Hin as [->|Hin]; [congruence|].
      destruct (IH (log ++ [Settle (pid q)])%list Hin Hp)
        as (e' & p' & settled & Hp' & Hf & Hs).
      exists e', p', (pid q :: settled). split; [now right|]. split; [exact Hf|].
      rewrite Hs, <- app_assoc. reflexivity.
    + exists eq, q, [pid q]. split; [now left|]. split; [exact Eq|]. reflexivity.
    + apply elem_of_cons in Hin as [->|Hin]; [congruence|].
      destruct (IH (log ++ [Settle (pid q)])%list Hin Hp)
        as (e' & p' & settled & Hp' & Hf & Hs).
      exists e', p', (pid q :: settled). split; [now right|]. split; [exact Hf|].
      rewrite Hs, <- app_assoc. reflexivity.
Qed.

Lemma Promise_all_rejected {A} (ps : list (promise A)) (env : environment)
    (log : list effect) (p : promise A) (e : exn) :
  p ∈ ps -> p.(fate) = Rejected e ->
  exists e' p' settled,
    p' ∈ ps /\ p'.(fate) = Rejected e' /\
    Promise_all ps env log = (Rejected e', (log ++ map Settle settled)%list).
Proof.
  intros Hin Hp. unfold Promise_all.
  set (ready := filter (fun q => is_pending q = false) ps).
  set (order := sort_by (fun q => finish_time env (pid q)) ready).
  assert (Hready : p ∈ ready).
  { apply list_elem_of_filter. split; [|exact Hin]. unfold is_pending. now rewrite Hp. }
  assert (Horder : p ∈ order).
  { unfold order. now rewrite sort_by_perm. }
  destruct (settle_rejected order log p e Horder Hp)
    as (e' & p' & settled & Hp' & Hf & Hs).
  exists e', p', settled. rewrite Hs. split; [|split; [exact Hf | reflexivity]].
  unfold order in Hp'. rewrite sort_by_perm in Hp'.
  now apply list_elem_of_filter in Hp' as [_ Hp'].
Qed.


Lemma children_fates (env : environment) (flowPath : string) (t : Z)
    (ids : list string) (log : list effect) :
  map (fun p => outcome_map snd p.(fate)) (children env flowPath t ids log)
  = device_runs env flowPath t ids log.
Proof.
  revert log. induction ids as [|id ids IH]; intros log; [reflexivity|].
  simpl. rewrite IH. f_equal.
  now destruct (execStream_outcome _).
Qed.

Lemma child_of_run (env : environment) (flowPath : string) (t : Z)
    (ids : list string) (log : list effect) (o : outcome ExecResult) :
  o ∈ device_runs env flowPath t ids log ->
  exists p, p ∈ children env flowPath t ids log /\ outcome_map snd p.(fate) = o.
Proof.
  rewrite <- children_fates. intros H.
  apply list_elem_of_fmap in H as (p & -> & Hp). eauto.
Qed.

Lemma run_of_child (env : environment) (flowPath : string) (t : Z)
    (ids : list string) (log : list effect) (p : promise (string * ExecResult)) :
  p ∈ children env flowPath t ids log ->
  outcome_map snd p.(fate) ∈ device_runs env flowPath t ids log.
Proof.
  rewrite <- children_fates. intros H.
  apply list_elem_of_fmap. eauto.
Qed.

Section MoreOrchestratorProperties.
Context {number : Type} `{!Runtime number}.

(** X7: when the scratch directory cannot be made, executeSteps throws that
    error and does nothing else; when the document cannot be written, it
    throws that error without launching the flow and without removing the
    directory it has just made. *)
Theorem executeSteps_setup_failure (appId : string)
    (steps : list (FlowStep number)) (deviceId : option string)
    (timeoutMs : option Z) (env : environment) (log : list effect) (e : exn) :
  let prefix := env.(path_join) env.(tmpdir) "maestro-mcp-" in
  let yaml := buildYaml appId steps in
  (env.(mkdtemp_reply) log prefix = Throw e ->
   executeSteps appId steps deviceId timeoutMs env log
   = (Rejected e, (log ++ [Mkdtemp prefix (Throw e)])%list)) /\
  (forall dir,
     let flowPath := env.(path_join) dir "flow.yaml" in
     let created := (log ++ [Mkdtemp prefix (Ok dir)])%list in
     env.(mkdtemp_reply) log prefix = Ok dir ->
     env.(writeFile_reply) created flowPath yaml = Throw e ->
     executeSteps appId steps deviceId timeoutMs env log
     = (Rejected e, (created ++ [WriteFile flowPath yaml (Throw e)])%list) /\
     dir ∈ scratch_dirs (created ++ [WriteFile flowPath yaml (Throw e)])).
Proof.
  intros prefix yaml. split.
  - intros Hmk. unfold executeSteps, bind, os_tmpdir, join_path, mkdtemp.
    fold prefix. now rewrite Hmk.
  - intros dir flowPath created Hmk Hwr. split.
    + unfold executeSteps, bind, os_tmpdir, join_path, mkdtemp, writeFile.
      fold prefix. rewrite Hmk. simpl of_result. cbv beta iota.
      fold created flowPath yaml. now rewrite Hwr.
    + unfold created. rewrite <- app_assoc. simpl.
      apply tracked_after_mkdtemp. intros path r Hmem.
      apply elem_of_cons in Hmem as [Hmem|Hmem]; [discriminate|].
      now apply elem_of_nil in Hmem.
Qed.

(** X8: when the launch of one child throws, executeStepsMultiDevice as a
    whole throws the error of such a child and returns no mapping; all
    children have been launched all the same, and the removal of the
    scratch directory is still the last effect. *)
Theorem multi_device_one_throw (appId : string) (steps : list (FlowStep number))
    (deviceIds : list string) (timeoutMs : option Z)
    (env : environment) (log : list effect) (dir : string) (e : exn) :
  let prefix := env.(path_join) env.(tmpdir) "maestro-mcp-" in
  let yaml := buildYaml appId steps in
  let flowPath := env.(path_join) dir "flow.yaml" in
  let created := (log ++ [Mkdtemp prefix (Ok dir)])%list in
  let written := (created ++ [WriteFile flowPath yaml (Ok tt)])%list in
  let t := default 180000%Z timeoutMs in
  let runs := device_runs env flowPath t deviceIds written in
  let launched :=
    (written ++ spawn_events flowPath t deviceIds (length written))%list in
  env.(mkdtemp_reply) log prefix = Ok dir ->
  env.(writeFile_reply) created flowPath yaml = Ok tt ->
  Rejected e ∈ runs ->
  exists e' settled,
    Rejected e' ∈ runs /\
    executeStepsMultiDevice appId steps deviceIds timeoutMs env log
    = (Rejected e',
       ((launched ++ map Settle settled)
          ++ [Rm dir (env.(rm_reply) (launched ++ map Settle settled) dir)])%list).
Proof.
  intros prefix yaml flowPath created written t runs launched Hmk Hwr Hrej.
  destruct (child_of_run _ _ _ _ _ _ Hrej) as (p & Hp & Hfate).
  assert (Hpf : p.(fate) = Rejected e).
  { destruct (fate p); simpl in Hfate; congruence. }
  destruct (Promise_all_rejected _ env launched p e Hp Hpf)
    as (e' & p' & settled & Hp' & Hf' & Hall).
  exists e', settled. split.
  - apply run_of_child in Hp'. now rewrite Hf' in Hp'.
  - unfold executeStepsMultiDevice, bind, os_tmpdir, join_path, mkdtemp, writeFile.
    fold prefix. rewrite Hmk. simpl of_result. cbv beta iota.
    fold created flowPath yaml. rewrite Hwr. simpl of_result. cbv beta iota.
    fold written. unfold try_finally, bind.
    rewrite launch_all. fold t launched. rewrite Hall.
    unfold catch_ignore, rm.
    destruct (rm_reply env _ dir) as [[]|err]; reflexivity.
Qed.


(** X10: with no device id at all, executeStepsMultiDevice still makes the
    scratch directory, writes the document and removes the directory, and
    returns the empty mapping without launching anything. *)
Theorem multi_device_no_device (appId : string) (steps : list (FlowStep number))
    (timeoutMs : option Z) (env : environment) (log : list effect) (dir : string) :
  let prefix := env.(path_join) env.(tmpdir) "maestro-mcp-" in
  let yaml := buildYaml appId steps in
  let flowPath := env.(path_join) dir "flow.yaml" in
  let created := (log ++ [Mkdtemp prefix (Ok dir)])%list in
  let written := (created ++ [WriteFile flowPath yaml (Ok tt)])%list in
  env.(mkdtemp_reply) log prefix = Ok dir ->
  env.(writeFile_reply) created flowPath yaml = Ok tt ->
  executeStepsMultiDevice appId steps [] timeoutMs env log
  = (Resolved (yaml, ∅), (written ++ [Rm dir (env.(rm_reply) written dir)])%list).
Proof.
  intros prefix yaml flowPath created written Hmk Hwr.
  unfold executeStepsMultiDevice, bind, os_tmpdir, join_path, mkdtemp, writeFile.
  fold prefix. rewrite Hmk. simpl of_result. cbv beta iota.
  fold created flowPath yaml. rewrite Hwr. simpl of_result. cbv beta iota.
  fold written. unfold try_finally, bind. simpl mapM. unfold ret at 1.
  unfold Promise_all. simpl.
  unfold ret, catch_ignore, rm.
  destruct (rm_reply env _ dir) as [[]|err]; reflexivity.
Qed.

End MoreOrchestratorProperties.

(** ** Installation check *)

Lemma trim_start_no_space (s : string) : starts_with_space (trim_start s) = false.
Proof.
  induction s as [|c s IH]; [reflexivity|]. simpl.
  destruct (is_space c) eqn:E; [exact IH|]. simpl. exact E.
Qed.

Lemma trim_end_keeps_start (s : string) :
  starts_with_space s = false -> starts_with_space (trim_end s) = false.
Proof.
  destruct s as [|c s]; [reflexivity|]. simpl. intros E.
  destruct (trim_end s); simpl; now rewrite E.
Qed.

Lemma trim_end_no_space (s : string) : ends_with_space (trim_end s) = false.
Proof.
  induction s as [|c s IH]; [reflexivity|]. simpl.
  destruct (trim_end s) as [|d kept] eqn:E.
  - destruct (is_space c) eqn:Ec; simpl; [reflexivity | exact Ec].
  - simpl in *. exact IH.
Qed.

Lemma trim_no_space (s : string) :
  starts_with_space (trim s) = false /\ ends_with_space (trim s) = false.
Proof.
  unfold trim. split.
  - apply trim_end_keeps_start, trim_start_no_space.
  - apply trim_end_no_space.
Qed.

Lemma or_else_not_empty (a b : string) : b <> "" -> or_else a b <> "".
Proof. unfold or_else. destruct a; simpl; intros H; [exact H | discriminate]. Qed.

Lemma checkInstallation_run (env : environment) (log : list effect) :
  let reply := env.(execFile_reply) log "maestro" ["--version"] 120000%Z in
  let asked := (log ++ [ExecFile (length log) "maestro" ["--version"] 120000%Z])%list in
  checkInstallation env log
  = match reply with
    | CallsBack a =>
        let r := exec_resolve a in
        (Resolved
           (if (r.(exitCode) =? 0)%Z then
              {| Install.installed := true;
                 Install.version := Some (trim r.(stdout));
                 Install.error := None |}
            else
              {| Install.installed := false;
                 Install.version := None;
                 Install.error := Some (or_else r.(stderr) "maestro CLI not found") |}),
         (asked ++ [Settle (length log)])%list)
    | ExecFileThrows e => (Rejected e, (asked ++ [Settle (length log)])%list)
    end.
Proof.
  intros reply asked. unfold checkInstallation, bind, exec, await. simpl default.
  fold reply. simpl fate. simpl pid. fold asked.
  destruct reply as [a|e]; simpl; [|reflexivity].
  match goal with |- context [(?c =? 0)%Z] => destruct (c =? 0)%Z end;
    reflexivity.
Qed.

(** X11: checkInstallation says installed exactly when the exit code is 0;
    then it gives the trimmed output as version and no error; otherwise it
    gives no version and an error text that is never empty: the stderr of
    the command, or the fixed text when stderr is empty. *)
Theorem checkInstallation_report (env : environment) (log : list effect)
    (a : CallbackArgs) :
  let r := exec_resolve a in
  env.(execFile_reply) log "maestro" ["--version"] 120000%Z = CallsBack a ->
  exists info,
    fst (checkInstallation env log) = Resolved info /\
    info.(Install.installed) = (r.(exitCode) =? 0)%Z /\
    (r.(exitCode) = 0%Z ->
       info.(Install.version) = Some (trim r.(stdout)) /\
       info.(Install.error) = None) /\
    (r.(exitCode) <> 0%Z ->
       info.(Install.version) = None /\
       exists msg, info.(Install.error) = Some msg /\ msg <> "" /\
                   (r.(stderr) <> "" -> msg = r.(stderr)) /\
                   (r.(stderr) = "" -> msg = "maestro CLI not found")).
Proof.
  intros r Hreply. pose proof (checkInstallation_run env log) as Hrun.
  cbv zeta in Hrun. rewrite Hreply in Hrun. rewrite Hrun. cbv beta iota zeta.
  fold r. unfold fst. clear Hrun. clearbody r.
  eexists. split; [reflexivity|].
  destruct (Z.eqb_spec (exitCode r) 0) as [E|E]; simpl.
  - split; [reflexivity|]. split; [now intros _|]. now intros Hne.
  - split; [reflexivity|]. split; [now intros E0|]. intros _.
    split; [reflexivity|]. eexists. split; [reflexivity|].
    split; [now apply or_else_not_empty|].
    unfold or_else. destruct (stderr r); simpl; split; congruence.
Qed.

(** X12: when the maestro executable is missing, checkInstallation answers
    not installed with the fixed text as error; when the call of execFile
    itself throws, checkInstallation throws the same error. *)
Theorem checkInstallation_missing_executable (env : environment)
    (log : list effect) :
  (forall errno out err,
     env.(execFile_reply) log "maestro" ["--version"] 120000%Z
       = CallsBack (execFile_report (SpawnFailed errno) out err) ->
     fst (checkInstallation env log)
     = Resolved {| Install.installed := false;
                   Install.version := None;
                   Install.error := Some "maestro CLI not found" |}) /\
  (forall e,
     env.(execFile_reply) log "maestro" ["--version"] 120000%Z = ExecFileThrows e ->
     fst (checkInstallation env log) = Rejected e).
Proof.
  pose proof (checkInstallation_run env log) as Hrun. cbv zeta in Hrun.
  split.
  - intros errno out err Hreply. now rewrite Hrun, Hreply.
  - intros e Hreply. now rewrite Hrun, Hreply.
Qed.

(** X13: the version checkInstallation reports never begins or ends with
    white space. *)
Theorem checkInstallation_version_trimmed (env : environment)
    (log : list effect) (info : Install.info) (v : string) :
  fst (checkInstallation env log) = Resolved info ->
  info.(Install.version) = Some v ->
  starts_with_space v = false /\ ends_with_space v = false.
Proof.
  pose proof (checkInstallation_run env log) as Hrun. cbv zeta in Hrun.
  rewrite Hrun. destruct (execFile_reply env log "maestro" ["--version"] 120000%Z)
    as [a|e]; unfold fst; [|intros Hinfo; discriminate Hinfo].
  destruct (exitCode (exec_resolve a) =? 0)%Z;
    intros Hinfo Hv; injection Hinfo as Hinfo; subst info; simpl in Hv;
    [|discriminate Hv].
  injection Hv as Hv. subst v. apply trim_no_space.
Qed.

(** ** Android listing *)

Lemma span_app (p : ascii -> bool) (s : string) :
  fst (span p s) ++ snd (span p s) = s.
Proof.
  induction s as [|c s IH]; [reflexivity|]. simpl.
  destruct (p c); [|reflexivity].
  destruct (span p s) as [taken left]. simpl in *. now rewrite IH.
Qed.

Lemma span_taken (p : ascii -> bool) (s : string) :
  string_forall p (fst (span p s)) = true.
Proof.
  induction s as [|c s IH]; [reflexivity|]. simpl.
  destruct (p c) eqn:E; [|reflexivity].
  destruct (span p s) as [taken left]. simpl in *. now rewrite E, IH.
Qed.

Lemma span_stops (p : ascii -> bool) (a b : string) :
  string_forall p a = true ->
  match b with String c _ => p c = false | EmptyString => True end ->
  span p (a ++ b) = (a, b).
Proof.
  intros Ha Hb. induction a as [|c a IH]; simpl in *.
  - destruct b as [|c b]; [reflexivity|]. simpl. now rewrite Hb.
  - apply andb_prop in Ha as [Hc Ha]. rewrite Hc, (IH Ha). reflexivity.
Qed.

Lemma span_left (p : ascii -> bool) (s : string) :
  match snd (span p s) with String c _ => p c = false | EmptyString => True end.
Proof.
  induction s as [|c s IH]; [exact I|]. simpl.
  destruct (p c) eqn:E; [|exact E].
  destruct (span p s) as [taken left]. exact IH.
Qed.

Lemma is_empty_spec (s : string) : is_empty s = false <-> s <> "".
Proof. destruct s; simpl; split; congruence. Qed.

Lemma status_word_spec (word : string) :
  existsb (String.eqb word) status_words = true <-> word ∈ status_words.
Proof.
  rewrite existsb_exists. split.
  - intros (w & Hin & Heq). apply String.eqb_eq in Heq as ->.
    now apply list_elem_of_In.
  - intros Hin. exists word. split; [now apply list_elem_of_In|].
    apply String.eqb_refl.
Qed.

Lemma match_device_line_parts (line id word : string) :
  match_device_line line = Some (id, word) ->
  exists gap,
    line = id ++ gap ++ word /\
    id <> "" /\ string_forall not_space id = true /\
    gap <> "" /\ string_forall is_space gap = true /\
    word ∈ status_words.
Proof.
  unfold match_device_line.
  pose proof (span_app (fun c => negb (is_space c)) line) as Hline.
  pose proof (span_taken (fun c => negb (is_space c)) line) as Hid.
  destruct (span (fun c => negb (is_space c)) line) as [id' rest].
  pose proof (span_app is_space rest) as Hrest.
  pose proof (span_taken is_space rest) as Hgap.
  destruct (span is_space rest) as [gap word']. cbn [fst snd] in *.
  destruct (is_empty id') eqn:Ei; cbn [negb andb]; [intros H; discriminate H|].
  destruct (is_empty gap) eqn:Eg; cbn [negb andb]; [intros H; discriminate H|].
  destruct (existsb (String.eqb word') status_words) eqn:Ew;
    [|intros H; discriminate H].
  intros [= <- <-]. exists gap.
  rewrite Hrest. repeat split; auto.
  - now apply is_empty_spec.
  - now apply is_empty_spec.
  - now apply status_word_spec.
Qed.

Lemma match_device_line_groups (line id word : string) :
  match_device_line line = Some (id, word) ->
  valid_android {| Android.id := id; Android.status := word |}.
Proof.
  intros H. apply match_device_line_parts in H as (gap & _ & Hid & Hidc & _ & _ & Hw).
  unfold valid_android. simpl. auto.
Qed.

(** X14: the pattern of the adb lines, spelled out: a line matches exactly
    when it is an id without white space, then white space, then one of
    the three status words, with nothing before or after; the groups are
    that id and that word. *)
Theorem match_device_line_spec (line id word : string) :
  match_device_line line = Some (id, word) <->
  exists gap,
    line = id ++ gap ++ word /\
    id <> "" /\ string_forall not_space id = true /\
    gap <> "" /\ string_forall is_space gap = true /\
    word ∈ status_words.
Proof.
  split; [apply match_device_line_parts|]. unfold match_device_line.
  - intros (gap & -> & Hid & Hidc & Hgap & Hgapc & Hword).
    assert (Hw : match word with String c _ => is_space c = false
                              | EmptyString => True end).
    { apply list_elem_of_In in Hword. simpl in Hword.
      destruct Hword as [<-|[<-|[<-|[]]]]; reflexivity. }
    rewrite (span_stops (fun c => negb (is_space c)) id (gap ++ word) Hidc).
    + rewrite (span_stops is_space gap word Hgapc Hw).
      apply is_empty_spec in Hid, Hgap. rewrite Hid, Hgap. cbn [negb andb].
      apply status_word_spec in Hword. now rewrite Hword.
    + destruct gap as [|c gap]; [congruence|]. cbn [String.append].
      cbn [string_forall] in Hgapc.
      apply andb_prop in Hgapc as [Hc _]. now rewrite Hc.
Qed.

Lemma collect_devices (lines : list string) (found : list Android.device) :
  fold_left
    (fun android line =>
       match match_device_line (trim line) with
       | Some (id, status) =>
           (android ++ [{| Android.id := id; Android.status := status |}])%list
       | None => android
       end)
    lines found
  = (found ++ omap device_of_line lines)%list.
Proof.
  revert found. induction lines as [|line lines IH]; intros found; simpl.
  - now rewrite app_nil_r.
  - rewrite IH. unfold device_of_line at 2.
    destruct (match_device_line (trim line)) as [[id status]|]; simpl;
      [now rewrite <- app_assoc | reflexivity].
Qed.

Lemma parse_android_lines (r : ExecResult) :
  parse_android r
  = if (r.(exitCode) =? 0)%Z
    then omap device_of_line (tail (split_on "010"%char r.(stdout)))
    else [].
Proof.
  unfold parse_android. destruct (exitCode r =? 0)%Z; [|reflexivity].
  now rewrite collect_devices.
Qed.

(** X15: every device parse_android lists has one of the three status
    words as status and an id that is not empty and has no white space;
    and it lists something only for exit code 0. *)
Theorem parse_android_valid (r : ExecResult) (d : Android.device) :
  d ∈ parse_android r -> valid_android d /\ r.(exitCode) = 0%Z.
Proof.
  rewrite parse_android_lines.
  destruct (Z.eqb_spec (exitCode r) 0) as [E|E]; [|intros H; now apply elem_of_nil in H].
  intros H. split; [|exact E].
  apply list_elem_of_omap in H as (line & _ & Hline).
  unfold device_of_line in Hline.
  destruct (match_device_line (trim line)) as [[id status]|] eqn:Hm; [|discriminate].
  injection Hline as <-. exact (match_device_line_groups _ _ _ Hm).
Qed.

Lemma split_on_nonempty (sep : ascii) (s : string) : split_on sep s <> [].
Proof.
  induction s as [|c s IH]; simpl; [discriminate|].
  destruct (Ascii.eqb c sep); [discriminate|].
  destruct (split_on sep s); [contradiction|discriminate].
Qed.

Lemma split_on_whole (sep : ascii) (s : string) :
  string_forall (differs sep) s = true -> split_on sep s = [s].
Proof.
  unfold differs. induction s as [|c s IH]; simpl; [reflexivity|].
  intros H. apply andb_prop in H as [Hc Hs].
  apply negb_true_iff in Hc. rewrite Hc, (IH Hs). reflexivity.
Qed.

Lemma split_on_app (sep : ascii) (a b : string) :
  split_on sep (a ++ String sep b) = (split_on sep a ++ split_on sep b)%list.
Proof.
  induction a as [|c a IH]; cbn [String.append split_on].
  - now rewrite Ascii.eqb_refl.
  - rewrite IH. destruct (Ascii.eqb c sep); [reflexivity|].
    pose proof (split_on_nonempty sep a) as Hne.
    destruct (split_on sep a) as [|first others]; [contradiction|reflexivity].
Qed.

Lemma split_on_pieces (sep : ascii) (s : string) :
  Forall (fun piece => string_forall (differs sep) piece = true) (split_on sep s).
Proof.
  unfold differs. induction s as [|c s IH]; simpl.
  - now constructor.
  - destruct (Ascii.eqb c sep) eqn:E; [now constructor|].
    destruct (split_on sep s) as [|first others]; [repeat constructor; simpl; now rewrite E|].
    inversion IH as [|? ? Hfirst Hothers]; subst.
    constructor; [|exact Hothers]. simpl. now rewrite E, Hfirst.
Qed.

(** X16: the first line of the adb output is never read as a device,
    whatever it says; the lines after it are read one by one, in order;
    and output without a line break lists nothing. *)
Theorem parse_android_header (header body err : string) :
  string_forall (differs "010"%char) header = true ->
  parse_android {| stdout := header ++ nl ++ body; stderr := err; exitCode := 0 |}
  = omap device_of_line (split_on "010"%char body) /\
  parse_android {| stdout := header; stderr := err; exitCode := 0 |} = [].
Proof.
  intros Hheader. rewrite !parse_android_lines. cbn [exitCode stdout Z.eqb].
  change (header ++ nl ++ body) with (header ++ String "010"%char body).
  now rewrite split_on_app, !(split_on_whole _ _ Hheader).
Qed.

(** X20: the segment written after a simulator's name is what follows the
    last dot of the runtime key, the whole key if it has no dot; it never
    contains a dot. *)
Theorem last_segment_spec (prefix segment : string) :
  string_forall (differs "."%char) segment = true ->
  last_segment (prefix ++ "." ++ segment) = segment /\
  last_segment segment = segment /\
  string_forall (differs "."%char) (last_segment prefix) = true.
Proof.
  intros Hseg. unfold last_segment. split; [|split].
  - change (prefix ++ "." ++ segment) with (prefix ++ String "."%char segment).
    rewrite split_on_app, (split_on_whole _ _ Hseg).
    now rewrite last_last.
  - now rewrite (split_on_whole _ _ Hseg).
  - pose proof (split_on_pieces "."%char prefix) as Hall.
    pose proof (split_on_nonempty "."%char prefix) as Hne.
    destruct (exists_last Hne) as (front & piece & Heq). rewrite Heq in *.
    rewrite last_last. apply Forall_app in Hall as [_ Hall].
    now inversion Hall.
Qed.

(** ** iOS listing *)

Section InventoryLoops.
Context {number : Type} `{!Runtime number}.

Lemma made_sound (runtime : string) (device : value number) :
  sound_entry runtime device ->
  forall rest ios,
    scan_devices runtime (device :: rest) ios
    = scan_devices runtime rest
        (ios ++ match made runtime device with Some r => [r] | None => [] end)%list.
Proof.
  intros (flag & Hflag & Hcase) rest ios. unfold made. simpl. rewrite Hflag.
  destruct Hcase as [-> | (record & Hrec)].
  - simpl. now rewrite app_nil_r.
  - rewrite Hrec. destruct (not_false flag); [reflexivity|now rewrite app_nil_r].
Qed.

Lemma scan_devices_sound (runtime : string) (entries : list (value number))
    (ios : list (Ios.device number)) :
  Forall (sound_entry runtime) entries ->
  scan_devices runtime entries ios = ((ios ++ omap (made runtime) entries)%list, None).
Proof.
  intros Hall. revert ios. induction Hall as [|device rest Hd _ IH]; intros ios.
  - simpl. now rewrite app_nil_r.
  - rewrite (made_sound _ _ Hd), IH. cbn [omap list_omap].
    destruct (made runtime device); simpl;
      [now rewrite <- app_assoc | now rewrite app_nil_r].
Qed.

Lemma scan_devices_broken (runtime : string) (good rest : list (value number))
    (bad : value number) (e : exn) (ios : list (Ios.device number)) :
  Forall (sound_entry runtime) good ->
  broken_entry runtime bad e ->
  scan_devices runtime (good ++ bad :: rest) ios
  = ((ios ++ omap (made runtime) good)%list, Some e).
Proof.
  intros Hall Hbad. revert ios. induction Hall as [|device good' Hd _ IH]; intros ios.
  - simpl. rewrite app_nil_r.
    destruct Hbad as [Hflag | (flag & Hflag & Hne & Hrec)]; rewrite Hflag;
      [reflexivity|].
    apply not_false_spec in Hne. now rewrite Hne, Hrec.
  - change ((device :: good') ++ bad :: rest)%list
      with (device :: (good' ++ bad :: rest))%list.
    rewrite (made_sound _ _ Hd), IH. cbn [omap list_omap].
    destruct (made runtime device); simpl;
      [now rewrite <- app_assoc | now rewrite app_nil_r].
Qed.

Lemma scan_runtimes_sound (devices : value number) (runtimes : list string)
    (ios : list (Ios.device number)) :
  Forall (sound_runtime devices) runtimes ->
  scan_runtimes devices runtimes ios
  = ((ios ++ concat (map (records_of devices) runtimes))%list, None).
Proof.
  intros Hall. revert ios. induction Hall as [|runtime rest Hrt _ IH]; intros ios.
  - simpl. now rewrite app_nil_r.
  - destruct Hrt as (listed & entries & Hget & Hit & Hentries). simpl.
    rewrite Hget, Hit, (scan_devices_sound _ _ _ Hentries), IH.
    unfold records_of at 2, entries_of. rewrite Hget, Hit.
    now rewrite <- app_assoc.
Qed.

(** X17: when no entry of the simulator listing makes the loop throw, the
    iOS list is complete and in the order of the listing: runtime by
    runtime, entry by entry, one record for each entry whose isAvailable
    is not false. *)
Theorem parse_ios_complete (r : ExecResult) (data found : value number) :
  r.(exitCode) = 0%Z ->
  JSON_parse r.(stdout) = Ok data ->
  get data "devices" = Ok found ->
  let devices := if truthy found then found else VObj [] in
  Forall (sound_runtime devices) (Object_keys devices) ->
  parse_ios r = concat (map (records_of devices) (Object_keys devices)).
Proof.
  intros Hcode Hparse Hget devices Hall.
  unfold parse_ios, ios_try. rewrite Hcode, Hparse, Hget. cbn [Z.eqb].
  fold devices. now rewrite (scan_runtimes_sound _ _ _ Hall).
Qed.

(** X18: an entry on which the loop body throws ends both loops: the
    records of the runtimes and entries before it are kept, and nothing is
    made of the entries and runtimes after it, sound or not. *)
Theorem broken_entry_truncates (devices : value number)
    (before after : list string) (runtime : string) (listed : value number)
    (good rest : list (value number)) (bad : value number) (e : exn)
    (ios : list (Ios.device number)) :
  Forall (sound_runtime devices) before ->
  get devices runtime = Ok listed ->
  iterate listed = Ok (good ++ bad :: rest)%list ->
  Forall (sound_entry runtime) good ->
  broken_entry runtime bad e ->
  scan_runtimes devices (before ++ runtime :: after) ios
  = ((ios ++ concat (map (records_of devices) before)
          ++ omap (made runtime) good)%list, Some e).
Proof.
  intros Hbefore Hget Hit Hgood Hbad. revert ios.
  induction Hbefore as [|first before' Hrt _ IH]; intros ios.
  - simpl. now rewrite Hget, Hit, (scan_devices_broken _ _ _ _ _ _ Hgood Hbad).
  - destruct Hrt as (listed' & entries & Hget' & Hit' & Hentries).
    change ((first :: before') ++ runtime :: after)%list
      with (first :: (before' ++ runtime :: after))%list.
    cbn [scan_runtimes]. rewrite Hget', Hit', (scan_devices_sound _ _ _ Hentries), IH.
    rewrite map_cons, concat_cons. unfold records_of at 2, entries_of.
    rewrite Hget', Hit'. now rewrite <- !app_assoc.
Qed.

Lemma lookup_prop_missing (key : string) (props : list (string * value number)) :
  has_key key props = false -> lookup_prop key props = VUndefined.
Proof.
  unfold has_key, lookup_prop. induction props as [|[k v] props IH]; simpl;
    [reflexivity|].
  destruct (String.eqb k key); simpl; [discriminate|exact IH].
Qed.

(** X19: an entry object without the properties udid, name and state
    still gives a record: its id is undefined, its name is the text
    [undefined] followed by the runtime segment in parentheses, and its
    status is [unknown]. *)
Theorem ios_record_missing_fields (runtime : string)
    (props : list (string * value number)) :
  has_key "udid" props = false ->
  has_key "name" props = false ->
  has_key "state" props = false ->
  ios_record runtime (VObj props)
  = Ok {| Ios.id := VUndefined;
          Ios.name := "undefined (" ++ last_segment runtime ++ ")";
          Ios.status := "unknown" |}.
Proof.
  intros Hu Hn Hs. unfold ios_record, get. cbn [Object_entries rbind].
  rewrite (lookup_prop_missing _ _ Hu), (lookup_prop_missing _ _ Hn),
    (lookup_prop_missing _ _ Hs).
  reflexivity.
Qed.

(** X21: listDevices starts both discovery commands, adb first, before it
    waits for either; it then waits for both, in the order they finish
    (adb first when they finish together), and does nothing else. *)
Theorem listDevices_launch_order (env : environment) (log : list effect) :
  let adb := length log in
  let xcrun := S (length log) in
  snd (listDevices env log)
  = (log ++ [ExecFile adb "adb" ["devices"] 120000%Z;
             ExecFile xcrun "xcrun" ["simctl"; "list"; "devices"; "--json"]
               120000%Z]
         ++ (if (env.(finish_time) adb <=? env.(finish_time) xcrun)%nat
             then [Settle adb; Settle xcrun]
             else [Settle xcrun; Settle adb]))%list.
Proof.
  intros adb xcrun.
  set (first := env.(execFile_reply) log "adb" ["devices"] 120000%Z).
  set (log1 := (log ++ [ExecFile (length log) "adb" ["devices"] 120000%Z])%list).
  set (second := env.(execFile_reply) log1 "xcrun"
                   ["simctl"; "list"; "devices"; "--json"] 120000%Z).
  pose proof (Promise_all_in_order
                [catch_with discovery_failed
                   {| pid := length log; fate := exec_outcome first |};
                 catch_with discovery_failed
                   {| pid := length log1; fate := exec_outcome second |}]
                [discovery_result first; discovery_result second] env
                (log1 ++ [ExecFile (length log1) "xcrun"
                            ["simctl"; "list"; "devices"; "--json"] 120000%Z])%list)
    as Hall.
  assert (Hlen : length log1 = xcrun).
  { unfold log1, xcrun. rewrite length_app. simpl. lia. }
  unfold listDevices, bind, exec. simpl default. fold first. cbv beta iota.
  fold log1. fold second. rewrite Hall by now destruct first, second.
  simpl. rewrite Hlen. fold adb. unfold log1. rewrite <- !app_assoc. simpl.
  fold adb. now destruct (finish_time env adb <=? finish_time env xcrun)%nat.
Qed.

End InventoryLoops.

(** ** Tool handlers *)

Section ToolProperties.
Context {number : Type} `{!Runtime number}.

(** X22: without a direction, the swipe tool needs both points: if one is
    missing it answers with the failure message and does nothing, no
    file, no process. *)
Theorem swipe_tool_needs_points (appId : string)
    (start finish : option (Point.t number)) (duration : option number)
    (deviceId : option string) (env : environment) (log : list effect) :
  start = None \/ finish = None ->
  swipe_tool appId None start finish duration deviceId env log
  = (Resolved (tool_fail "Provide either 'direction' or both 'start' and 'end' points."),
     log).
Proof.
  intros [-> | ->]; unfold swipe_tool, swipe_steps; [reflexivity|].
  now destruct start.
Qed.


(** X24: the run_flow tool with neither content nor a path (absent or
    empty) answers with the failure message and does nothing. *)
Theorem run_flow_tool_needs_input (yamlContent filePath deviceId : option string)
    (env : environment) (log : list effect) :
  truthy_text yamlContent = false ->
  truthy_text filePath = false ->
  run_flow_tool yamlContent filePath deviceId env log
  = (Resolved (tool_fail "Provide either yamlContent or filePath."), log).
Proof.
  intros Hy Hf. unfold run_flow_tool. now rewrite Hy, Hf.
Qed.


(** X26: with inline content only, the run_flow tool writes the content,
    as given, to flow.yaml in a fresh directory, runs it and removes the
    directory after a run that resolves; it has no finally, so a run that
    rejects leaves the directory behind. *)
Theorem run_flow_tool_inline (content dir : string) (filePath deviceId : option string)
    (env : environment) (log : list effect) :
  content <> "" -> truthy_text filePath = false -> dir <> "" ->
  let prefix := env.(path_join) env.(tmpdir) "maestro-mcp-flow-" in
  let flowPath := env.(path_join) dir "flow.yaml" in
  let made := (log ++ [Mkdtemp prefix (Ok dir)])%list in
  let written := (made ++ [WriteFile flowPath content (Ok tt)])%list in
  let args := (device_args deviceId ++ ["test"; flowPath])%list in
  let launched := (written ++ [Spawn (length written) "maestro" args 180000%Z])%list in
  let settled := (launched ++ [Settle (length written)])%list in
  env.(mkdtemp_reply) log prefix = Ok dir ->
  env.(writeFile_reply) made flowPath content = Ok tt ->
  run_flow_tool (Some content) filePath deviceId env log
  = match execStream_outcome (env.(spawn_reply) written "maestro" args 180000%Z) with
    | Resolved result =>
        (Resolved (by_exit_code result (run_report result)),
         (settled ++ [Rm dir (env.(rm_reply) settled dir)])%list)
    | Rejected e => (Rejected e, settled)
    | Pending => (Pending, launched)
    end.
Proof.
  intros Hcontent Hfile Hdir prefix flowPath made written args launched settled
    Hmk Hwr.
  unfold run_flow_tool.
  assert (Ht : truthy_text (Some content) = true) by (destruct content; [congruence|reflexivity]).
  assert (Hd : truthy_text (Some dir) = true) by (destruct dir; [congruence|reflexivity]).
  rewrite Ht, Hfile. cbn [negb andb].
  cbv [bind os_tmpdir join_path mkdtemp writeFile ret default from_option id fst snd].
  fold prefix. rewrite Hmk. cbv [of_result]. fold made. fold flowPath.
  rewrite Hwr. fold written.
  cbv [runFlow execStream await default from_option id pid fate fst snd].
  fold args. fold launched.
  destruct (execStream_outcome (spawn_reply env written "maestro" args 180000%Z));
    [|reflexivity|reflexivity].
  fold settled. rewrite Hd. cbv [catch_ignore rm].
  destruct (rm_reply env settled dir) as [[]|e']; reflexivity.
Qed.

(** X27: launchStudio passes a port only if it is truthy: the port 0 is
    treated like no port at all, and no --port argument is passed. *)
Theorem launchStudio_falsy_port (deviceId : option string) (port : number)
    (env : environment) (log : list effect) :
  Number_isTruthy port = false ->
  launchStudio deviceId (Some port) env log = launchStudio deviceId None env log /\
  snd (launchStudio deviceId (Some port) env log)
  = (log ++ [ExecFile (length log) "maestro"
               (device_args deviceId ++ ["studio"]) 5000%Z])%list.
Proof.
  intros Hport. unfold launchStudio. rewrite Hport, app_nil_r. now split.
Qed.

End ToolProperties.

(** ** Worked instances *)

Lemma escapeYaml_injective_witness :
  escapeYaml ("say " ++ dq ++ "hi" ++ dq) = "say " ++ bs ++ dq ++ "hi" ++ bs ++ dq /\
  "say " ++ dq ++ "hi" ++ dq = "say " ++ dq ++ "hi" ++ dq.
Proof.
  split; [reflexivity|].
  apply (escapeYaml_injective ("say " ++ dq ++ "hi" ++ dq) ("say " ++ dq ++ "hi" ++ dq)).
  reflexivity.
Defined.

Lemma escapeYaml_growth_witness :
  specials "Login" = 0%nat /\ escapeYaml "Login" = "Login".
Proof.
  split; [reflexivity|].
  apply (proj2 (proj2 (escapeYaml_growth "Login"))). reflexivity.
Defined.

Lemma execStream_pending_iff_witness :
  forallb is_data [StdoutData "Running"] = true /\
  execStream_outcome (Emits [StdoutData "Running"]) = Pending.
Proof.
  split; [reflexivity|].
  apply (proj2 (execStream_pending_iff [StdoutData "Running"])). reflexivity.
Defined.

Lemma executeSteps_setup_failure_witness :
  full_disk_env.(mkdtemp_reply) [] "/tmp/maestro-mcp-" = Ok "/tmp/maestro-mcp-AbC123" /\
  executeSteps (Runtime0 := plain_runtime) "com.test.app" [] None None full_disk_env []
  = (Rejected (SystemError "ENOSPC"),
     [Mkdtemp "/tmp/maestro-mcp-" (Ok "/tmp/maestro-mcp-AbC123");
      WriteFile "/tmp/maestro-mcp-AbC123/flow.yaml"
                ("appId: com.test.app" ++ nl ++ "---" ++ nl)
                (Throw (SystemError "ENOSPC"))]).
Proof.
  split; [reflexivity|].
  destruct (executeSteps_setup_failure (Runtime0 := plain_runtime) "com.test.app" []
              None None full_disk_env [] (SystemError "ENOSPC")) as [_ Hwrite].
  destruct (Hwrite "/tmp/maestro-mcp-AbC123") as [Hrun _];
    [reflexivity | reflexivity | exact Hrun].
Defined.

Lemma multi_device_one_throw_witness :
  exists e settled,
    executeStepsMultiDevice (Runtime0 := plain_runtime) "com.test.app" []
      ["dev-A"; "dev-B"] None hostile_env []
    = (Rejected e,
       (([Mkdtemp "/tmp/maestro-mcp-" (Ok "/tmp/maestro-mcp-AbC123");
          WriteFile "/tmp/maestro-mcp-AbC123/flow.yaml"
                    ("appId: com.test.app" ++ nl ++ "---" ++ nl) (Ok tt);
          Spawn 2 "maestro"
                ["--device"; "dev-A"; "test"; "/tmp/maestro-mcp-AbC123/flow.yaml"]
                180000%Z;
          Spawn 3 "maestro"
                ["--device"; "dev-B"; "test"; "/tmp/maestro-mcp-AbC123/flow.yaml"]
                180000%Z] ++ map Settle settled)
          ++ [Rm "/tmp/maestro-mcp-AbC123" (Throw (SystemError "EBUSY"))])%list).
Proof.
  destruct (multi_device_one_throw (Runtime0 := plain_runtime) "com.test.app" []
              ["dev-A"; "dev-B"] None hostile_env [] "/tmp/maestro-mcp-AbC123"
              (TypeError "The argument 'args' is invalid"))
    as (e & settled & _ & Hrun);
    [reflexivity | reflexivity | apply list_elem_of_In; left; reflexivity |].
  exists e, settled. exact Hrun.
Defined.


Lemma multi_device_no_device_witness :
  two_device_env.(mkdtemp_reply) [] "/tmp/maestro-mcp-" = Ok "/tmp/maestro-mcp-AbC123" /\
  executeStepsMultiDevice (Runtime0 := plain_runtime) "com.test.app" [] [] None
    two_device_env []
  = (Resolved ("appId: com.test.app" ++ nl ++ "---" ++ nl, ∅),
     [Mkdtemp "/tmp/maestro-mcp-" (Ok "/tmp/maestro-mcp-AbC123");
      WriteFile "/tmp/maestro-mcp-AbC123/flow.yaml"
                ("appId: com.test.app" ++ nl ++ "---" ++ nl) (Ok tt);
      Rm "/tmp/maestro-mcp-AbC123" (Ok tt)]).
Proof.
  split; [reflexivity|].
  apply (multi_device_no_device (Runtime0 := plain_runtime) "com.test.app" [] None
           two_device_env [] "/tmp/maestro-mcp-AbC123"); reflexivity.
Defined.

Lemma checkInstallation_report_witness :
  exists info,
    fst (checkInstallation installed_env []) = Resolved info /\
    info.(Install.installed) = true.
Proof.
  destruct (checkInstallation_report installed_env []
              (execFile_report (Exited 0) (" 1.39.0" ++ nl) ""))
    as (info & Hrun & Hflag & _); [reflexivity|].
  exists info. split; [exact Hrun | exact Hflag].
Defined.

Lemma checkInstallation_missing_executable_witness :
  fst (checkInstallation two_device_env [])
  = Resolved {| Install.installed := false;
                Install.version := None;
                Install.error := Some "maestro CLI not found" |}.
Proof.
  apply (proj1 (checkInstallation_missing_executable two_device_env [])
           "ENOENT" "" "").
  reflexivity.
Defined.

Lemma checkInstallation_version_trimmed_witness :
  fst (checkInstallation installed_env [])
  = Resolved {| Install.installed := true;
                Install.version := Some "1.39.0";
                Install.error := None |} /\
  starts_with_space "1.39.0" = false /\ ends_with_space "1.39.0" = false.
Proof.
  split; [reflexivity|].
  apply (checkInstallation_version_trimmed installed_env []
           {| Install.installed := true;
              Install.version := Some "1.39.0";
              Install.error := None |} "1.39.0"); reflexivity.
Defined.

Lemma match_device_line_spec_witness :
  match_device_line ("emulator-5554" ++ tab ++ "device")
  = Some ("emulator-5554", "device") /\
  exists gap,
    "emulator-5554" ++ tab ++ "device" = "emulator-5554" ++ gap ++ "device" /\
    string_forall is_space gap = true.
Proof.
  split; [reflexivity|].
  destruct (proj1 (match_device_line_spec ("emulator-5554" ++ tab ++ "device")
                     "emulator-5554" "device"))
    as (gap & Hline & _ & _ & _ & Hgap & _); [reflexivity|].
  exists gap. split; [exact Hline | exact Hgap].
Defined.

Lemma parse_android_valid_witness :
  valid_android {| Android.id := "R58M42ABCDE"; Android.status := "unauthorized" |}.
Proof.
  apply (parse_android_valid
           {| stdout := adb_listing; stderr := ""; exitCode := 0 |}).
  apply list_elem_of_In. right. left. reflexivity.
Defined.

Lemma parse_android_header_witness :
  string_forall (differs "010"%char) "List of devices attached" = true /\
  parse_android {| stdout := adb_listing; stderr := ""; exitCode := 0 |}
  = [{| Android.id := "emulator-5554"; Android.status := "device" |};
     {| Android.id := "R58M42ABCDE"; Android.status := "unauthorized" |}].
Proof.
  split; [reflexivity|].
  apply (parse_android_header "List of devices attached"
           ("emulator-5554" ++ String "009"%char "device" ++ nl
            ++ "R58M42ABCDE" ++ String "009"%char "unauthorized" ++ nl) "").
  reflexivity.
Defined.

Lemma last_segment_spec_witness :
  last_segment "com.apple.CoreSimulator.SimRuntime.iOS-17-5" = "iOS-17-5".
Proof.
  apply (last_segment_spec "com.apple.CoreSimulator.SimRuntime" "iOS-17-5").
  reflexivity.
Defined.

Lemma parse_ios_complete_witness :
  parse_ios (Runtime0 := inventory_runtime)
    {| stdout := "two.json"; stderr := ""; exitCode := 0 |}
  = [{| Ios.id := VStr "5B6D77EF"; Ios.name := "iPhone 16 (iOS-17-5)";
        Ios.status := "booted" |};
     {| Ios.id := VStr "TV-1"; Ios.name := "Apple TV (tvOS-18-0)";
        Ios.status := "unknown" |}].
Proof.
  apply (parse_ios_complete (Runtime0 := inventory_runtime)
           {| stdout := "two.json"; stderr := ""; exitCode := 0 |}
           two_runtimes
           (VObj [("com.apple.CoreSimulator.SimRuntime.iOS-17-5",
                   VArr [VObj [("udid", VStr "5B6D77EF");
                               ("name", VStr "iPhone 16");
                               ("state", VStr "Booted");
                               ("isAvailable", VBool true)];
                         VObj [("udid", VStr "DEAD0000");
                               ("name", VStr "iPhone SE");
                               ("state", VStr "Shutdown");
                               ("isAvailable", VBool false)]]);
                  ("com.apple.CoreSimulator.SimRuntime.tvOS-18-0",
                   VArr [VObj [("udid", VStr "TV-1");
                               ("name", VStr "Apple TV")]])]));
    [reflexivity | reflexivity | reflexivity |].
  constructor; [|constructor; [|constructor]].
  - eexists _, _. split; [reflexivity|]. split; [reflexivity|].
    constructor; [|constructor; [|constructor]].
    + eexists. split; [reflexivity|]. right. eexists. reflexivity.
    + eexists. split; [reflexivity|]. left. reflexivity.
  - eexists _, _. split; [reflexivity|]. split; [reflexivity|].
    constructor; [|constructor].
    eexists. split; [reflexivity|]. right. eexists. reflexivity.
Defined.

Lemma broken_entry_truncates_witness :
  let runtime := "com.apple.CoreSimulator.SimRuntime.iOS-17-5" in
  let good := [VObj [("udid", VStr "5B6D77EF"); ("name", VStr "iPhone 16");
                     ("state", VStr "Booted"); ("isAvailable", VBool true)];
               VObj [("udid", VStr "DEAD0000"); ("name", VStr "iPhone SE");
                     ("state", VStr "Shutdown"); ("isAvailable", VBool false)];
               VObj [("udid", VStr "AAA-BBB"); ("name", VStr "iPad Pro")]] in
  let late := VObj [("udid", VStr "LATE")] in
  let devices := VObj [(runtime, VArr (good ++ VNull :: [late]))] in
  scan_runtimes (Runtime0 := plain_runtime) devices [runtime; "later"] []
  = ([{| Ios.id := VStr "5B6D77EF"; Ios.name := "iPhone 16 (iOS-17-5)";
         Ios.status := "booted" |};
      {| Ios.id := VStr "AAA-BBB"; Ios.name := "iPad Pro (iOS-17-5)";
         Ios.status := "unknown" |}],
     Some (TypeError "Cannot read properties")).
Proof.
  intros runtime good late devices.
  apply (broken_entry_truncates (Runtime0 := plain_runtime) devices [] ["later"]
           runtime (VArr (good ++ VNull :: [late])) good [late] VNull
           (TypeError "Cannot read properties") []).
  - constructor.
  - reflexivity.
  - reflexivity.
  - constructor; [|constructor; [|constructor; [|constructor]]].
    + eexists. split; [reflexivity|]. right. eexists. reflexivity.
    + eexists. split; [reflexivity|]. left. reflexivity.
    + eexists. split; [reflexivity|]. right. eexists. reflexivity.
  - left. reflexivity.
Defined.

Lemma ios_record_missing_fields_witness :
  ios_record (Runtime0 := plain_runtime) "com.apple.CoreSimulator.SimRuntime.iOS-17-5"
    (VObj [("isAvailable", VBool true)])
  = Ok {| Ios.id := VUndefined; Ios.name := "undefined (iOS-17-5)";
          Ios.status := "unknown" |}.
Proof.
  apply (ios_record_missing_fields (Runtime0 := plain_runtime)
           "com.apple.CoreSimulator.SimRuntime.iOS-17-5"
           [("isAvailable", VBool true)]); reflexivity.
Defined.

Lemma swipe_tool_needs_points_witness :
  swipe_tool (Runtime0 := plain_runtime) "com.test.app" None None
    (Some {| Point.x := 50%Z; Point.y := 80%Z |}) (Some 300%Z) None two_device_env []
  = (Resolved (tool_fail "Provide either 'direction' or both 'start' and 'end' points."),
     []).
Proof.
  apply (swipe_tool_needs_points (Runtime0 := plain_runtime)). left. reflexivity.
Defined.

Lemma run_flow_tool_needs_input_witness :
  run_flow_tool None (Some "") (Some "emulator-5554") two_device_env []
  = (Resolved (tool_fail "Provide either yamlContent or filePath."), []).
Proof.
  apply (run_flow_tool_needs_input None (Some "") (Some "emulator-5554")
           two_device_env []); reflexivity.
Defined.


Lemma run_flow_tool_inline_witness :
  run_flow_tool (Some "- launchApp") None None hostile_env []
  = (Rejected (TypeError "The argument 'args' is invalid"),
     [Mkdtemp "/tmp/maestro-mcp-flow-" (Ok "/tmp/maestro-mcp-flow-AbC123");
      WriteFile "/tmp/maestro-mcp-flow-AbC123/flow.yaml" "- launchApp" (Ok tt);
      Spawn 2 "maestro" ["test"; "/tmp/maestro-mcp-flow-AbC123/flow.yaml"] 180000%Z;
      Settle 2]).
Proof.
  apply (run_flow_tool_inline "- launchApp" "/tmp/maestro-mcp-flow-AbC123" None None
           hostile_env []);
    [discriminate | reflexivity | discriminate | reflexivity | reflexivity].
Defined.

Lemma launchStudio_falsy_port_witness :
  snd (launchStudio (Runtime0 := plain_runtime) (Some "emulator-5554") (Some 0%Z)
         two_device_env [])
  = [ExecFile 0 "maestro" ["--device"; "emulator-5554"; "studio"] 5000%Z].
Proof.
  apply (launchStudio_falsy_port (Runtime0 := plain_runtime) (Some "emulator-5554")
           0%Z two_device_env []).
  reflexivity.
Defined.
